(** * The session control loop of [Session 10/agent/agent_loop3.py]

    A shallow embedding of [AgentLoop] and of the records it works on,
    followed by the laws of the loop: the fast path, the bounded
    failure-memory window, plan versioning, the evaluation policy and the
    terminal steps.

    Python objects that the loop mutates in place (the [Step] objects, the
    one [AgentSession] and the one [session_memory] list of a [run]) live
    in an explicit store; the external collaborators (memory search,
    perception, decision, executor, uuid) are functions over an abstract
    world [W] that they may read and change, so that two calls with the
    same argument may answer differently.  [print] statements are left
    out.  The [while] loop of [run] takes fuel, and running out of it is an
    outcome of its own.

    The classes of [agent/agentSession.py] ([AgentSession], [Step],
    [ToolCode], [PerceptionSnapshot]) are modelled from the specification
    of the loop, and each such definition says so; of the dicts that the
    collaborators exchange with the loop, the records below keep the keys
    that [agent_loop3.py] reads or writes. *)

From Stdlib Require Import String ZArith QArith List Lia.
From stdpp Require Import base option list gmap strings.

Open Scope string_scope.
Open Scope list_scope.

(** ** Data model *)

(** A JSON number that the loop only passes along. *)
Definition Number : Type := Q.

(** One memory entry: a record returned by [MemorySearch.search_memory]
    (with its [file] key) or a failure summary built by [execute_step]
    (without one). *)
Record MemoryRecord : Type := mkMemoryRecord {
  mem_file : option string;
  mem_query : string;
  mem_result_requirement : string;
  mem_solution_summary : string
}.

(** The dict returned by [Perception.run]; the [PerceptionSnapshot] built
    from it holds the same five fields, so one record serves for both.
    Every key is present, as the perception contract requires. *)
Record PerceptionSnapshot : Type := mkPerceptionSnapshot {
  original_goal_achieved : bool;
  local_goal_achieved : bool;
  confidence : Number;
  reasoning : string;
  solution_summary : string
}.

(** The dict returned by [run_user_code]: its ['result'] key when it has
    one, and the text that [str] gives for the whole dict. *)
Record ExecutorResponse : Type := mkExecutorResponse {
  result : option string;
  response_str : string
}.

(** What [step.execution_result] may hold once set: the executor's dict
    (CODE) or the conclusion text (CONCLUDE). *)
Inductive ExecutionResult : Type :=
| ResultResponse (r : ExecutorResponse)
| ResultText (s : string).

(** Modelled from the spec: [ToolCode] of [agent/agentSession.py], the
    "optional code payload (tool name + arguments, used only for CODE)". *)
Record ToolCode : Type := mkToolCode {
  tool_name : string;
  tool_arguments : gmap string (option string)
}.

(** Modelled from the spec: [Step] of [agent/agentSession.py]: "index,
    description, type, optional code payload, optional conclusion text,
    execution result (initially unset), status (pending -> completed |
    clarification_needed), optional attached PerceptionSnapshot". *)
Record Step : Type := mkStep {
  index : Z;
  description : string;
  type : string;
  code : option ToolCode;
  conclusion : option string;
  execution_result : option ExecutionResult;
  status : string;
  perception : option PerceptionSnapshot
}.

(** A reference to a [Step] object: its address in the store. *)
Definition StepRef : Type := nat.

(** One entry of [session.plan_versions]: the dict
    [{"plan_text": ..., "steps": ...}]. *)
Record PlanVersion : Type := mkPlanVersion {
  plan_text : list string;
  steps : list StepRef
}.

(** [session.state]. *)
Record SessionState : Type := mkSessionState {
  state_original_goal_achieved : bool;
  final_answer : option string;
  state_confidence : option Number;
  reasoning_note : option string;
  state_solution_summary : option string
}.

(** Modelled from the spec: [AgentSession] of [agent/agentSession.py]:
    "identity, original query, ordered list of PlanVersion, a mutable state
    record", and the opening perception snapshot that [add_perception]
    stores. *)
Record AgentSession : Type := mkAgentSession {
  session_id : string;
  original_query : string;
  session_perception : option PerceptionSnapshot;
  plan_versions : list PlanVersion;
  state : SessionState
}.

(** The keyword arguments of [Perception.build_perception_input]. *)
Record PerceptionInput : Type := mkPerceptionInput {
  raw_input : option string;
  memory : list MemoryRecord;
  current_plan : option (list string);
  snapshot_type : string
}.

(** The dict returned by [Decision.run], with every key that the loop
    reads: [create_step] subscripts "step_index", "description", "type"
    and, for a CODE answer only, "code", and reads "conclusion" with
    [.get]; "plan_text" is subscripted where the plan version is added.
    [out_code] and [out_conclusion] are [None] for a key that is absent or
    holds [None].  A CODE answer is taken to carry its "code" key: without
    it line 106 raises KeyError, a path that this record does not have, so
    nothing below speaks of what [create_step] raises. *)
Record DecisionOutput : Type := mkDecisionOutput {
  step_index : Z;
  out_description : string;
  out_type : string;
  out_code : option string;
  out_conclusion : option string;
  out_plan_text : list string
}.

(** The two request shapes handed to [Decision.run]; [to_dict] of a step
    is the step's record at the time of the call. *)
Inductive DecisionInput : Type :=
| InitialRequest (planning_strategy original_query : string)
                 (perception : PerceptionSnapshot)
| MidSessionRequest (planning_strategy original_query : string)
                    (current_plan_version : nat)
                    (current_plan : list string)
                    (completed_steps : list Step)
                    (current_step : Step)
                    (step_failed : bool).

(** ** Collaborators *)

(** An [AgentLoop] object: its strategy and the collaborators it calls. *)
Record AgentLoop (W : Type) : Type := mkAgentLoop {
  strategy : string;
  uuid4 : W -> string * W;
  memory_search : string -> W -> list MemoryRecord * W;
  perception_run : PerceptionInput -> W -> PerceptionSnapshot * W;
  decision_run : DecisionInput -> W -> DecisionOutput * W;
  run_user_code : option string -> W -> ExecutorResponse * W
}.

Arguments strategy {W} _.
Arguments uuid4 {W} _ _.
Arguments memory_search {W} _ _ _.
Arguments perception_run {W} _ _ _.
Arguments decision_run {W} _ _ _.
Arguments run_user_code {W} _ _ _.

(** ** Store, trace and the monad of the loop *)

(** What the loop does that can be seen from outside.  [EvExecuteStep]
    marks the entry of [execute_step] with the step as it is then. *)
Inductive Event : Type :=
| EvMemorySearch (query : string) (results : list MemoryRecord)
| EvPerception (input : PerceptionInput) (output : PerceptionSnapshot)
| EvDecision (input : DecisionInput) (output : DecisionOutput)
| EvExecutor (code : option string) (output : ExecutorResponse)
| EvLiveUpdate (session : AgentSession) (objects : list Step)
| EvExecuteStep (step : StepRef) (content : Step).

(** A trace entry: the event and the failure-memory window at that time. *)
Record Observation : Type := mkObservation {
  obs_event : Event;
  obs_window : list MemoryRecord
}.

Inductive PyError : Type :=
| AttributeError
| IndexError
| KeyError
| InvalidReference.

(** The mutable objects of one [run]: the [Step] objects by address, the
    session, the failure-memory list [session_memory] of [run], the
    collaborators' world and the trace so far. *)
Record Store (W : Type) : Type := mkStore {
  world : W;
  objects : list Step;
  session : AgentSession;
  session_memory : list MemoryRecord;
  trace : list Observation
}.

Arguments mkStore {W} _ _ _ _ _.
Arguments world {W} _.
Arguments objects {W} _.
Arguments session {W} _.
Arguments session_memory {W} _.
Arguments trace {W} _.

(** How a computation ends: it returns, it raises, or the model's fuel for
    the [while] loop ran out. *)
Inductive Outcome (W A : Type) : Type :=
| Done (a : A) (st : Store W)
| Raised (e : PyError) (st : Store W)
| OutOfFuel (st : Store W).

Arguments Done {W A} _ _.
Arguments Raised {W A} _ _.
Arguments OutOfFuel {W A} _.

Definition M (W A : Type) : Type := Store W -> Outcome W A.

Definition ret {W A} (a : A) : M W A := fun st => Done a st.

Definition bind {W A B} (m : M W A) (f : A -> M W B) : M W B :=
  fun st =>
    match m st with
    | Done a st' => f a st'
    | Raised e st' => Raised e st'
    | OutOfFuel st' => OutOfFuel st'
    end.

Notation "x <- m ;; k" := (bind m (fun x => k))
  (at level 20, m at level 99, k at level 200).
Notation "m ;;; k" := (bind m (fun _ => k))
  (at level 100, k at level 200, right associativity).

Definition raise {W A} (e : PyError) : M W A := fun st => Raised e st.

Definition out_of_fuel {W A} : M W A := fun st => OutOfFuel st.

Definition final_store {W A} (o : Outcome W A) : Store W :=
  match o with
  | Done _ st => st
  | Raised _ st => st
  | OutOfFuel st => st
  end.

Definition events {W} (st : Store W) : list Event :=
  map obs_event (trace st).

(** *** Field updates *)

Definition with_execution_result (v : option ExecutionResult) (s : Step) : Step :=
  mkStep (index s) (description s) (type s) (code s) (conclusion s)
         v (status s) (perception s).

Definition with_status (v : string) (s : Step) : Step :=
  mkStep (index s) (description s) (type s) (code s) (conclusion s)
         (execution_result s) v (perception s).

Definition with_perception (v : option PerceptionSnapshot) (s : Step) : Step :=
  mkStep (index s) (description s) (type s) (code s) (conclusion s)
         (execution_result s) (status s) v.

Definition with_session_perception (v : option PerceptionSnapshot)
    (a : AgentSession) : AgentSession :=
  mkAgentSession (session_id a) (original_query a) v (plan_versions a) (state a).

Definition with_plan_versions (v : list PlanVersion) (a : AgentSession) : AgentSession :=
  mkAgentSession (session_id a) (original_query a) (session_perception a) v (state a).

Definition with_state (v : SessionState) (a : AgentSession) : AgentSession :=
  mkAgentSession (session_id a) (original_query a) (session_perception a)
                 (plan_versions a) v.

Definition with_world {W} (v : W) (st : Store W) : Store W :=
  mkStore v (objects st) (session st) (session_memory st) (trace st).

Definition with_objects {W} (v : list Step) (st : Store W) : Store W :=
  mkStore (world st) v (session st) (session_memory st) (trace st).

Definition with_session {W} (v : AgentSession) (st : Store W) : Store W :=
  mkStore (world st) (objects st) v (session_memory st) (trace st).

Definition with_session_memory {W} (v : list MemoryRecord) (st : Store W) : Store W :=
  mkStore (world st) (objects st) (session st) v (trace st).

Definition with_trace {W} (v : list Observation) (st : Store W) : Store W :=
  mkStore (world st) (objects st) (session st) (session_memory st) v.

(** *** Store primitives *)

Definition emit {W} (e : Event) : M W unit :=
  fun st => Done tt (with_trace (trace st ++ [mkObservation e (session_memory st)]) st).

Definition get_session {W} : M W AgentSession :=
  fun st => Done (session st) st.

Definition update_session {W} (f : AgentSession -> AgentSession) : M W unit :=
  fun st => Done tt (with_session (f (session st)) st).

Definition get_session_memory {W} : M W (list MemoryRecord) :=
  fun st => Done (session_memory st) st.

Definition put_session_memory {W} (v : list MemoryRecord) : M W unit :=
  fun st => Done tt (with_session_memory v st).

(** Reading a [Step] object through a reference. *)
Definition deref {W} (r : StepRef) : M W Step :=
  fun st =>
    match objects st !! r with
    | Some s => Done s st
    | None => Raised InvalidReference st
    end.

(** Assigning to fields of a [Step] object in place. *)
Definition update_step {W} (r : StepRef) (f : Step -> Step) : M W unit :=
  fun st =>
    match objects st !! r with
    | Some s => Done tt (with_objects (<[r := f s]> (objects st)) st)
    | None => Raised InvalidReference st
    end.

(** A new [Step] object; its address is the next free one. *)
Definition alloc {W} (s : Step) : M W StepRef :=
  fun st => Done (length (objects st)) (with_objects (objects st ++ [s]) st).

(** *** Python helpers *)

(** [x or []]. *)
Definition or_empty {A} (x : option (list A)) : list A :=
  match x with
  | Some l => l
  | None => []
  end.

(** [s[:n]]. *)
Definition slice_to (n : nat) (s : string) : string := substring 0 n s.

(** [str(step.execution_result)]. *)
Definition str_execution_result (v : option ExecutionResult) : string :=
  match v with
  | None => "None"
  | Some (ResultResponse r) => response_str r
  | Some (ResultText s) => s
  end.

Definition GLOBAL_PREVIOUS_FAILURE_STEPS : nat := 3.

(** [session.plan_versions[-1]["plan_text"]]. *)
Definition latest_plan_text {W} : M W (list string) :=
  fun st =>
    match last (plan_versions (session st)) with
    | Some v => Done (plan_text v) st
    | None => Raised IndexError st
    end.

(** ** The [AgentSession] methods *)

(** Modelled from the spec: the state of a session "created at query
    start": the goal is not achieved and nothing has been written yet. *)
Definition initial_state : SessionState :=
  mkSessionState false None None None None.

(** Modelled from the spec: the constructor [AgentSession(session_id,
    original_query)] of [agent/agentSession.py]; no plan version exists
    before the initial decision is "recorded as plan version 1". *)
Definition AgentSession_new (sid query : string) : AgentSession :=
  mkAgentSession sid query None [] initial_state.

(** Modelled from the spec: [AgentSession.add_perception], which keeps the
    snapshot "produced directly for the opening query". *)
Definition add_perception {W} (p : PerceptionSnapshot) : M W unit :=
  update_session (with_session_perception (Some p)).

(** Modelled from the spec: [AgentSession.add_plan_version(plan_text,
    steps)]: plan versions are "append-only, never mutated after append";
    the call hands back the step with which the loop continues, the first
    of [steps]. *)
Definition add_plan_version {W} (text : list string) (new_steps : list StepRef)
    : M W (option StepRef) :=
  update_session (fun a =>
    with_plan_versions (plan_versions a ++ [mkPlanVersion text new_steps]) a) ;;;
  ret (head new_steps).

(** Modelled from the spec: the state that [mark_complete] writes, "using
    this snapshot"; the final answer is the override when one is given and
    the snapshot's summary otherwise. *)
Definition completed_state (p : PerceptionSnapshot) (answer : option string)
    : SessionState :=
  mkSessionState (original_goal_achieved p)
                 (Some (default (solution_summary p) answer))
                 (Some (confidence p))
                 (Some (reasoning p))
                 (Some (solution_summary p)).

(** Modelled from the spec: [AgentSession.mark_complete(perception,
    final_answer=None)]. *)
Definition mark_complete {W} (p : PerceptionSnapshot) (answer : option string)
    : M W unit :=
  update_session (with_state (completed_state p answer)).

(** ** The methods of [AgentLoop] *)

Section Methods.

Context {W : Type} (self : AgentLoop W).

(** [live_update_session(session)]: the sink is handed the session as it is
    now, steps included. *)
Definition live_update_session : M W unit :=
  fun st => emit (EvLiveUpdate (session st) (objects st)) st.

(** [search_memory], lines 55-65. *)
Definition search_memory (query : string) : M W (list MemoryRecord) :=
  fun st =>
    let '(results, w) := memory_search self query (world st) in
    (emit (EvMemorySearch query results) ;;; ret results) (with_world w st).

(** [run_perception], lines 67-78. *)
Definition run_perception (query : option string)
    (memory_results : option (list MemoryRecord))
    (session_memory : option (list MemoryRecord))
    (snapshot_type : string)
    (current_plan : option (list string)) : M W PerceptionSnapshot :=
  let combined_memory := or_empty memory_results ++ or_empty session_memory in
  let perception_input :=
    mkPerceptionInput query combined_memory current_plan snapshot_type in
  fun st =>
    let '(perception_result, w) := perception_run self perception_input (world st) in
    (emit (EvPerception perception_input perception_result) ;;;
     ret perception_result) (with_world w st).

(** [handle_perception_completion], lines 80-89.  The perception result
    holds every key, so the defaults of [.get] are never used. *)
Definition handle_perception_completion (perception_result : PerceptionSnapshot)
    : M W unit :=
  update_session (with_state
    (mkSessionState true
                    (Some (solution_summary perception_result))
                    (Some (confidence perception_result))
                    (Some (reasoning perception_result))
                    (Some (solution_summary perception_result)))) ;;;
  live_update_session.

(** [self.decision.run(decision_input)]. *)
Definition call_decision (decision_input : DecisionInput) : M W DecisionOutput :=
  fun st =>
    let '(decision_output, w) := decision_run self decision_input (world st) in
    (emit (EvDecision decision_input decision_output) ;;;
     ret decision_output) (with_world w st).

(** [make_initial_decision], lines 91-99. *)
Definition make_initial_decision (query : string)
    (perception_result : PerceptionSnapshot) : M W DecisionOutput :=
  call_decision (InitialRequest (strategy self) query perception_result).

(** The [Step] that [create_step] builds, lines 101-108, from an answer
    that holds the keys it subscripts; the fields that the call does not
    pass start as the data model says: no result, status "pending", no
    snapshot. *)
Definition new_step (decision_output : DecisionOutput) : Step :=
  mkStep (step_index decision_output)
         (out_description decision_output)
         (out_type decision_output)
         (if String.eqb (out_type decision_output) "CODE"
          then Some (mkToolCode "raw_code_block"
                                {[ "code" := out_code decision_output ]})
          else None)
         (out_conclusion decision_output)
         None "pending" None.

Definition create_step (decision_output : DecisionOutput) : M W StepRef :=
  alloc (new_step decision_output).

(** [run_user_code(code, self.multi_mcp)]. *)
Definition call_executor (code : option string) : M W ExecutorResponse :=
  fun st =>
    let '(executor_response, w) := run_user_code self code (world st) in
    (emit (EvExecutor code executor_response) ;;;
     ret executor_response) (with_world w st).

(** Lines 128-136: the failure summary is appended and the oldest entry is
    dropped once the list is longer than [GLOBAL_PREVIOUS_FAILURE_STEPS]. *)
Definition remember_failure (failure_memory : MemoryRecord)
    (session_memory : list MemoryRecord) : list MemoryRecord :=
  let appended := session_memory ++ [failure_memory] in
  if Nat.ltb GLOBAL_PREVIOUS_FAILURE_STEPS (length appended)
  then tail appended
  else appended.

(** [execute_step], lines 110-162.  A snapshot object is true in a
    condition, so [not step.perception] is false once it is set.  A type
    other than the three falls through every branch and returns [None]. *)
Definition execute_step (step : StepRef) : M W (option StepRef) :=
  s <- deref step ;;
  emit (EvExecuteStep step s) ;;;
  if String.eqb (type s) "CODE" then
    tool_code <- match code s with
                 | Some c => ret c
                 | None => raise AttributeError
                 end ;;
    code_text <- match tool_arguments tool_code !! "code" with
                 | Some c => ret c
                 | None => raise KeyError
                 end ;;
    executor_response <- call_executor code_text ;;
    update_step step (with_execution_result (Some (ResultResponse executor_response))) ;;;
    update_step step (with_status "completed") ;;;
    window <- get_session_memory ;;
    plan <- latest_plan_text ;;
    perception_result <-
      run_perception (Some (default "Tool Failed" (result executor_response)))
                     (Some window) None "step_result" (Some plan) ;;
    update_step step (with_perception (Some perception_result)) ;;;
    s' <- deref step ;;
    (if negb (local_goal_achieved perception_result) then
       let failure_memory :=
         mkMemoryRecord None (description s') "Tool failed"
                        (slice_to 300 (str_execution_result (execution_result s'))) in
       window' <- get_session_memory ;;
       put_session_memory (remember_failure failure_memory window')
     else ret tt) ;;;
    live_update_session ;;;
    ret (Some step)
  else if String.eqb (type s) "CONCLUDE" then
    update_step step (with_execution_result (ResultText <$> conclusion s)) ;;;
    update_step step (with_status "completed") ;;;
    window <- get_session_memory ;;
    plan <- latest_plan_text ;;
    perception_result <-
      run_perception (conclusion s) (Some window) None "step_result" (Some plan) ;;
    update_step step (with_perception (Some perception_result)) ;;;
    mark_complete perception_result (conclusion s) ;;;
    live_update_session ;;;
    ret None
  else if String.eqb (type s) "NOP" then
    update_step step (with_status "clarification_needed") ;;;
    live_update_session ;;;
    ret None
  else ret None.

(** [run_mid_session_decision], lines 201-217. *)
Definition run_mid_session_decision (query : string) (completed_step : StepRef)
    (step_failed : bool) : M W DecisionOutput :=
  a <- get_session ;;
  plan <- latest_plan_text ;;
  all_steps <- (fun st =>
                  match mapM (fun r => objects st !! r)
                             (concat (map steps (plan_versions a))) with
                  | Some l => Done l st
                  | None => Raised InvalidReference st
                  end) ;;
  current <- deref completed_step ;;
  call_decision
    (MidSessionRequest (strategy self) query
       (length (plan_versions a)) plan
       (filter (fun s => status s = "completed") all_steps)
       current step_failed).

(** [append_new_plan_version], lines 219-230. *)
Definition append_new_plan_version (decision_output : DecisionOutput)
    : M W (option StepRef) :=
  new <- create_step decision_output ;;
  step <- add_plan_version (out_plan_text decision_output) [new] ;;
  live_update_session ;;;
  ret step.

(** [get_next_step], lines 176-190. *)
Definition get_next_step (query : string) (completed_step : StepRef)
    : M W (option StepRef) :=
  latest_plan <- latest_plan_text ;;
  s <- deref completed_step ;;
  let next_index := (index s + 1)%Z in
  if (next_index <? Z.of_nat (length latest_plan))%Z then
    decision_output <- run_mid_session_decision query completed_step false ;;
    append_new_plan_version decision_output
  else ret None.

(** [replan_after_failure], lines 192-199. *)
Definition replan_after_failure (query : string) (failed_step : StepRef)
    : M W (option StepRef) :=
  decision_output <- run_mid_session_decision query failed_step true ;;
  append_new_plan_version decision_output.

(** [evaluate_step], lines 164-174. *)
Definition evaluate_step (step : StepRef) (query : string) : M W (option StepRef) :=
  s <- deref step ;;
  p <- match perception s with
       | Some p => ret p
       | None => raise AttributeError
       end ;;
  if original_goal_achieved p then
    mark_complete p None ;;;
    live_update_session ;;;
    ret None
  else if local_goal_achieved p then
    get_next_step query step
  else
    replan_after_failure query step.

(** The [while step:] loop of [run], lines 42-46; a [Step] object is true
    in a condition and [None] is false. *)
Fixpoint while_step (fuel : nat) (query : string) (step : option StepRef)
    : M W unit :=
  match step with
  | None => ret tt
  | Some current =>
      match fuel with
      | O => out_of_fuel
      | S fuel' =>
          step_result <- execute_step current ;;
          match step_result with
          | None => ret tt
          | Some executed =>
              next <- evaluate_step executed query ;;
              while_step fuel' query next
          end
      end
  end.

(** [run] from line 27 on, once the session object exists. *)
Definition run_session (fuel : nat) (query : string) : M W AgentSession :=
  memory_results <- search_memory query ;;
  perception_result <-
    run_perception (Some query) (Some memory_results) (Some memory_results)
                   "user_query" None ;;
  add_perception perception_result ;;;
  if original_goal_achieved perception_result then
    handle_perception_completion perception_result ;;;
    get_session
  else
    decision_output <- make_initial_decision query perception_result ;;
    first <- create_step decision_output ;;
    step <- add_plan_version (out_plan_text decision_output) [first] ;;
    live_update_session ;;;
    while_step fuel query step ;;;
    get_session.

(** [run], lines 22-48: a fresh session and an empty failure memory, then
    the body above. *)
Definition run (fuel : nat) (query : string) (w : W) : Outcome W AgentSession :=
  let '(sid, w1) := uuid4 self w in
  run_session fuel query (mkStore w1 [] (AgentSession_new sid query) [] []).

End Methods.

(** ** Vocabulary of the laws *)

(** The value a computation returned, if it did. *)
Definition returned {W A} (o : Outcome W A) : option A :=
  match o with
  | Done a _ => Some a
  | _ => None
  end.

Definition is_execute_event (e : Event) : bool :=
  match e with
  | EvExecuteStep _ _ => true
  | _ => false
  end.

Definition is_decision_event (e : Event) : bool :=
  match e with
  | EvDecision _ _ => true
  | _ => false
  end.

Definition is_executor_event (e : Event) : bool :=
  match e with
  | EvExecutor _ _ => true
  | _ => false
  end.

(** A step after which [execute_step] ends the loop by design. *)
Definition terminal_type (s : Step) : Prop :=
  type s = "CONCLUDE" \/ type s = "NOP".

(** The Python objects behind a list of references. *)
Definition deref_all {W} (st : Store W) (refs : list StepRef) : option (list Step) :=
  mapM (fun r => objects st !! r) refs.

(** Every step of every plan version of the session. *)
Definition session_steps {W} (st : Store W) : list StepRef :=
  concat (map steps (plan_versions (session st))).

(** A relation between a store and a later one that every elementary
    change of the loop keeps, for the events in [Pev]. *)
Record Frame {W} (R : Store W -> Store W -> Prop) (Pev : Event -> Prop) : Prop :=
  mkFrame {
    frame_refl : forall st, R st st;
    frame_trans : forall a b c, R a b -> R b c -> R a c;
    frame_emit : forall e st, Pev e ->
      R st (with_trace (trace st ++ [mkObservation e (session_memory st)]) st);
    frame_world : forall w st, R st (with_world w st);
    frame_objects : forall v st, R st (with_objects v st);
    frame_perception : forall p st,
      R st (with_session (with_session_perception p (session st)) st);
    frame_state : forall v st,
      R st (with_session (with_state v (session st)) st);
    frame_plan : forall t r st,
      R st (with_session
              (with_plan_versions
                 (plan_versions (session st) ++ [mkPlanVersion t [r]])
                 (session st)) st);
    frame_memory : forall f st,
      R st (with_session_memory (remember_failure f (session_memory st)) st)
  }.

(** [m] takes every store to an [R]-related one, however it ends. *)
Definition respects {W A} (R : Store W -> Store W -> Prop) (m : M W A) : Prop :=
  forall st, R st (final_store (m st)).

Section Vocabulary.

Context {W : Type}.

Implicit Types (st : Store W) (r : StepRef) (s : Step).

(** The step object after the CODE branch has run. *)
Definition executed_code (resp : ExecutorResponse) (p : PerceptionSnapshot) s : Step :=
  with_perception (Some p)
    (with_status "completed"
       (with_execution_result (Some (ResultResponse resp)) s)).

(** The step object after the CONCLUDE branch has run. *)
Definition executed_conclude (p : PerceptionSnapshot) s : Step :=
  with_perception (Some p)
    (with_status "completed"
       (with_execution_result (ResultText <$> conclusion s) s)).

(** The failure summary of lines 128-132. *)
Definition failure_summary s (resp : ExecutorResponse) : MemoryRecord :=
  mkMemoryRecord None (description s) "Tool failed"
                 (slice_to 300 (response_str resp)).

(** The input of a perception call on a step result, as [run_perception]
    builds it from the failure memory and no [session_memory] argument. *)
Definition step_result_input (text : option string) st (v : PlanVersion)
    : PerceptionInput :=
  mkPerceptionInput text (or_empty (Some (session_memory st)) ++ or_empty None)
                    (Some (plan_text v)) "step_result".

(** The store after [append_new_plan_version]: one more object, one more
    plan version, one live update. *)
Definition appended (d : DecisionOutput) st : Store W :=
  let objs := objects st ++ [new_step d] in
  let a := with_plan_versions
             (plan_versions (session st)
              ++ [mkPlanVersion (out_plan_text d) [length (objects st)]])
             (session st) in
  mkStore (world st) objs a (session_memory st)
    (trace st ++ [mkObservation (EvLiveUpdate a objs) (session_memory st)]).

(** The store after a decision call. *)
Definition decided (input : DecisionInput) (d : DecisionOutput) (w : W) st
    : Store W :=
  mkStore w (objects st) (session st) (session_memory st)
    (trace st ++ [mkObservation (EvDecision input d) (session_memory st)]).

(** The store in which [evaluate_step] stops on an achieved goal. *)
Definition completed (p : PerceptionSnapshot) (st : Store W) : Store W :=
  let a := with_state (completed_state p None) (session st) in
  mkStore (world st) (objects st) a (session_memory st)
    (trace st ++ [mkObservation (EvLiveUpdate a (objects st)) (session_memory st)]).

(** A computation that hands back the session object. *)
Definition returns_session (m : M W AgentSession) : Prop :=
  forall st a st', m st = Done a st' -> a = session st'.

(** A computation that never hands back a step. *)
Definition never_some (m : M W (option StepRef)) : Prop :=
  forall st a st', m st = Done a st' -> a = None.

End Vocabulary.

Definition extends_by {W} (Pev : Event -> Prop) (st st' : Store W) : Prop :=
  exists l, trace st' = trace st ++ l /\ Forall (fun o => Pev (obs_event o)) l.

Definition keeps {W} (I : Store W -> Prop) (st st' : Store W) : Prop :=
  I st -> I st'.

Definition window_bounded {W} (st : Store W) : Prop :=
  length (session_memory st) <= GLOBAL_PREVIOUS_FAILURE_STEPS /\
  Forall (fun o => length (obs_window o) <= GLOBAL_PREVIOUS_FAILURE_STEPS) (trace st).

Definition plans_populated {W} (st : Store W) : Prop :=
  Forall (fun v => exists r, steps v = [r]) (plan_versions (session st)).

Definition plans_started {W} (st : Store W) : Prop :=
  plan_versions (session st) <> [].

(** An event that is not the entry of a step in [T]. *)
Definition entry_avoids (T : Step -> Prop) (e : Event) : Prop :=
  match e with
  | EvExecuteStep _ s => ~ T s
  | _ => True
  end.

Definition not_entry (e : Event) : Prop := is_execute_event e = false.

(** In a trace, nothing is executed after a step of [T]. *)
Definition last_executed (T : Step -> Prop) (l : list Event) : Prop :=
  forall before r s after,
    l = before ++ EvExecuteStep r s :: after -> T s -> Forall not_entry after.

(** What holds each time the loop tests its condition on a step: the
    session state has not been written, and the step is a fresh object and
    the only step of the latest plan version. *)
Definition loop_head {W} (st : Store W) (step : option StepRef) : Prop :=
  state (session st) = initial_state /\
  forall r, step = Some r ->
    exists d t,
      objects st !! r = Some (new_step d) /\
      last (plan_versions (session st)) = Some (mkPlanVersion t [r]).

Section Opening.

Context {W : Type} (self : AgentLoop W).

Implicit Types (st : Store W) (r : StepRef) (s : Step).

(** What the memory search answers at the start of [run]. *)
Definition opening_memory (query : string) (w : W) : list MemoryRecord :=
  fst (memory_search self query (snd (uuid4 self w))).

(** The input of the opening perception call, as [run] builds it. *)
Definition opening_input (query : string) (w : W) : PerceptionInput :=
  mkPerceptionInput (Some query)
    (or_empty (Some (opening_memory query w)) ++ or_empty (Some (opening_memory query w)))
    None "user_query".

(** What perception answers to the opening call. *)
Definition opening_perception (query : string) (w : W) : PerceptionSnapshot :=
  fst (perception_run self (opening_input query w)
         (snd (memory_search self query (snd (uuid4 self w))))).

(** The request that [run_mid_session_decision] builds in store [st]. *)
Definition mid_session_request (query : string) (v : PlanVersion)
    (all_steps : list Step) (current : Step) (step_failed : bool) st
    : DecisionInput :=
  MidSessionRequest (strategy self) query
    (length (plan_versions (session st))) (plan_text v)
    (filter (fun s => status s = "completed") all_steps)
    current step_failed.

(** The store once the opening perception has been recorded. *)
Definition opened (query : string) (w : W) : Store W :=
  let p := opening_perception query w in
  mkStore
    (snd (perception_run self (opening_input query w)
            (snd (memory_search self query (snd (uuid4 self w))))))
    []
    (with_session_perception (Some p)
       (AgentSession_new (fst (uuid4 self w)) query))
    []
    [mkObservation (EvMemorySearch query (opening_memory query w)) [];
     mkObservation (EvPerception (opening_input query w) p) []].

(** The store in which the fast path returns. *)
Definition answered (query : string) (w : W) : Store W :=
  let p := opening_perception query w in
  let st := opened query w in
  let a := with_state
             (mkSessionState true (Some (solution_summary p)) (Some (confidence p))
                             (Some (reasoning p)) (Some (solution_summary p)))
             (session st) in
  mkStore (world st) [] a []
    (trace st ++ [mkObservation (EvLiveUpdate a []) []]).

(** The request of the initial decision and what the decision answers. *)
Definition initial_request (query : string) (w : W) : DecisionInput :=
  InitialRequest (strategy self) query (opening_perception query w).

Definition initial_decision (query : string) (w : W) : DecisionOutput :=
  fst (decision_run self (initial_request query w) (world (opened query w))).

(** The store when plan version 1 has been recorded. *)
Definition planned (query : string) (w : W) : Store W :=
  let st := opened query w in
  let d := initial_decision query w in
  mkStore (snd (decision_run self (initial_request query w) (world st)))
    [new_step d]
    (with_plan_versions [mkPlanVersion (out_plan_text d) [0]] (session st))
    []
    (trace st ++ [mkObservation (EvDecision (initial_request query w) d) []]).

End Opening.

(** ** Scripted collaborators

    A world that answers from four scripts, one per collaborator; each call
    takes the next answer of its script and a fixed answer once the script
    is used up.  The concrete sessions below run on it. *)

Record Script : Type := mkScript {
  script_memory : list MemoryRecord;
  script_perceptions : list PerceptionSnapshot;
  script_decisions : list DecisionOutput;
  script_responses : list ExecutorResponse
}.

Definition scripted : AgentLoop Script :=
  mkAgentLoop Script "exploratory"
    (fun w => ("session-1", w))
    (fun _ w => (script_memory w, w))
    (fun _ w =>
       match script_perceptions w with
       | p :: rest =>
           (p, mkScript (script_memory w) rest (script_decisions w) (script_responses w))
       | [] => (mkPerceptionSnapshot false false 0%Q "" "", w)
       end)
    (fun _ w =>
       match script_decisions w with
       | d :: rest =>
           (d, mkScript (script_memory w) (script_perceptions w) rest (script_responses w))
       | [] => (mkDecisionOutput 0 "" "NOP" None None [], w)
       end)
    (fun _ w =>
       match script_responses w with
       | r :: rest =>
           (r, mkScript (script_memory w) (script_perceptions w) (script_decisions w) rest)
       | [] => (mkExecutorResponse None "{}", w)
       end).

(** ** Concrete sessions *)

Definition remembered : MemoryRecord :=
  mkMemoryRecord (Some "memory/session_1.json") "capital of France"
                 "name of a city" "Paris".

Definition achieved : PerceptionSnapshot :=
  mkPerceptionSnapshot true true (95 # 100) "answered from memory" "Paris".

Definition not_achieved : PerceptionSnapshot :=
  mkPerceptionSnapshot false false (40 # 100) "needs a tool" "Not ready yet".

Definition step_succeeded : PerceptionSnapshot :=
  mkPerceptionSnapshot false true (80 # 100) "step done" "Partial result".

(** A query that memory answers. *)
Definition lookup_world : Script :=
  mkScript [remembered] [achieved] [] [].

(** A query for which the first decision asks for clarification. *)
Definition clarify : DecisionOutput :=
  mkDecisionOutput 0 "Which city do you mean?" "NOP" None None
                   ["Step 0: ask the user which city is meant"].

Definition clarify_world : Script :=
  mkScript [] [not_achieved] [clarify] [].

(** A session in the middle of its first CODE step, with a full
    failure memory. *)
Definition count_step : DecisionOutput :=
  mkDecisionOutput 0 "Count the words of the file" "CODE"
                   (Some "result = count_words('notes.txt')") None
                   ["Step 0: count the words"; "Step 1: report the number"].

Definition report_step : DecisionOutput :=
  mkDecisionOutput 1 "Report the number" "CONCLUDE" None (Some "1200 words")
                   ["Step 0: count the words"; "Step 1: report the number"].

Definition earlier_failure (n : string) : MemoryRecord :=
  mkMemoryRecord None n "Tool failed" "{'status': 'error'}".

Definition tool_error : ExecutorResponse :=
  mkExecutorResponse None "{'status': 'error', 'error': 'file not found'}".

Definition tool_success : ExecutorResponse :=
  mkExecutorResponse (Some "1200") "{'status': 'success', 'result': '1200'}".

Definition counting_session : AgentSession :=
  mkAgentSession "session-1" "How many words?" (Some not_achieved)
    [mkPlanVersion (out_plan_text count_step) [0]] initial_state.

Definition failing_store : Store Script :=
  mkStore (mkScript [] [not_achieved] [report_step] [tool_error])
    [new_step count_step] counting_session
    [earlier_failure "first"; earlier_failure "second"; earlier_failure "third"]
    [].

(** A session whose first CODE step has been executed and judged. *)
Definition judged_store (p : PerceptionSnapshot) : Store Script :=
  mkStore (mkScript [] [] [report_step] [])
    [executed_code tool_success p (new_step count_step)]
    counting_session [] [].

Definition inconsistent : PerceptionSnapshot :=
  mkPerceptionSnapshot true false (90 # 100) "overall goal met" "1200 words".

(** A session about to execute a CONCLUDE step. *)
Definition concluding_store : Store Script :=
  mkStore (mkScript [] [achieved] [] [])
    [executed_code tool_success step_succeeded (new_step count_step);
     new_step report_step]
    (mkAgentSession "session-1" "How many words?" (Some not_achieved)
       [mkPlanVersion (out_plan_text count_step) [0];
        mkPlanVersion (out_plan_text report_step) [1]] initial_state)
    [] [].

(** ** One iteration of the loop *)

Section Iteration.

Context {W : Type} (self : AgentLoop W).

Implicit Types (st : Store W) (r : StepRef) (s : Step).

(** The store after the CODE branch of [execute_step], lines 113-139. *)
Definition code_executed r s (c : option string) (resp : ExecutorResponse)
    (v : PlanVersion) (p : PerceptionSnapshot) (w : W) st : Store W :=
  let objs := <[r := executed_code resp p s]> (objects st) in
  let window :=
    if local_goal_achieved p then session_memory st
    else remember_failure (failure_summary s resp) (session_memory st) in
  mkStore w objs (session st) window
    (trace st ++
     [mkObservation (EvExecuteStep r s) (session_memory st);
      mkObservation (EvExecutor c resp) (session_memory st);
      mkObservation
        (EvPerception
           (step_result_input (Some (default "Tool Failed" (result resp))) st v) p)
        (session_memory st);
      mkObservation (EvLiveUpdate (session st) objs) window]).

(** The store after the CONCLUDE branch, lines 141-156. *)
Definition concluded r s (v : PlanVersion) (p : PerceptionSnapshot) (w : W) st
    : Store W :=
  let objs := <[r := executed_conclude p s]> (objects st) in
  let done := with_state (completed_state p (conclusion s)) (session st) in
  mkStore w objs done (session_memory st)
    (trace st ++
     [mkObservation (EvExecuteStep r s) (session_memory st);
      mkObservation (EvPerception (step_result_input (conclusion s) st v) p)
                    (session_memory st);
      mkObservation (EvLiveUpdate done objs) (session_memory st)]).

(** The store after the NOP branch, lines 158-162. *)
Definition clarification_asked r s st : Store W :=
  let objs := <[r := with_status "clarification_needed" s]> (objects st) in
  mkStore (world st) objs (session st) (session_memory st)
    ((trace st ++ [mkObservation (EvExecuteStep r s) (session_memory st)])
     ++ [mkObservation (EvLiveUpdate (session st) objs) (session_memory st)]).

(** The store after [execute_step] fell through its three branches. *)
Definition fallen_through r s st : Store W :=
  with_trace (trace st ++ [mkObservation (EvExecuteStep r s) (session_memory st)]) st.

(** What [evaluate_step] does with the executed step [s] at [r] and its
    snapshot [p]: the step it hands back and the store it leaves. *)
Inductive evaluates (query : string) st r s (p : PerceptionSnapshot)
    : option StepRef -> Store W -> Prop :=
| evaluates_complete :
    original_goal_achieved p = true ->
    evaluates query st r s p None (completed p st)
| evaluates_advance v all d w :
    original_goal_achieved p = false ->
    local_goal_achieved p = true ->
    last (plan_versions (session st)) = Some v ->
    deref_all st (session_steps st) = Some all ->
    (index s + 1 < Z.of_nat (length (plan_text v)))%Z ->
    decision_run self (mid_session_request self query v all s false st) (world st)
      = (d, w) ->
    evaluates query st r s p (Some (length (objects st)))
      (appended d (decided (mid_session_request self query v all s false st) d w st))
| evaluates_exhausted v :
    original_goal_achieved p = false ->
    local_goal_achieved p = true ->
    last (plan_versions (session st)) = Some v ->
    ~ (index s + 1 < Z.of_nat (length (plan_text v)))%Z ->
    evaluates query st r s p None st
| evaluates_replan v all d w :
    original_goal_achieved p = false ->
    local_goal_achieved p = false ->
    last (plan_versions (session st)) = Some v ->
    deref_all st (session_steps st) = Some all ->
    decision_run self (mid_session_request self query v all s true st) (world st)
      = (d, w) ->
    evaluates query st r s p (Some (length (objects st)))
      (appended d (decided (mid_session_request self query v all s true st) d w st)).

(** What one turn of the [while] loop does with the step at [r]: the step
    the loop goes on with, if any, and the store it leaves. *)
Inductive iterates (query : string) st r : option StepRef -> Store W -> Prop :=
| iterates_code s tc c resp w1 v p w2 next st' :
    objects st !! r = Some s ->
    type s = "CODE" ->
    code s = Some tc ->
    tool_arguments tc !! "code" = Some c ->
    run_user_code self c (world st) = (resp, w1) ->
    last (plan_versions (session st)) = Some v ->
    perception_run self
      (step_result_input (Some (default "Tool Failed" (result resp))) st v) w1
      = (p, w2) ->
    evaluates query (code_executed r s c resp v p w2 st) r (executed_code resp p s) p
              next st' ->
    iterates query st r next st'
| iterates_conclude s v p w1 :
    objects st !! r = Some s ->
    type s = "CONCLUDE" ->
    last (plan_versions (session st)) = Some v ->
    perception_run self (step_result_input (conclusion s) st v) (world st) = (p, w1) ->
    iterates query st r None (concluded r s v p w1 st)
| iterates_nop s :
    objects st !! r = Some s ->
    type s = "NOP" ->
    iterates query st r None (clarification_asked r s st)
| iterates_other s :
    objects st !! r = Some s ->
    type s <> "CODE" -> type s <> "CONCLUDE" -> type s <> "NOP" ->
    iterates query st r None (fallen_through r s st).

(** The store in which [run] enters the [while] loop: plan version 1 has
    been recorded and the sink has been told. *)
Definition started (query : string) (w : W) : Store W :=
  let st := planned self query w in
  with_trace
    (trace st ++ [mkObservation (EvLiveUpdate (session st) (objects st)) []]) st.

End Iteration.

(** A store in which the loop can test its condition on [step]: every
    reference of the session points to an object, there is a plan version,
    and the step, if any, is as [create_step] made it and is the only step
    of the latest plan version. *)
Definition well_formed {W} (st : Store W) (step : option StepRef) : Prop :=
  Forall (fun r => r < length (objects st)) (session_steps st) /\
  plan_versions (session st) <> [] /\
  forall r, step = Some r ->
    exists d t,
      objects st !! r = Some (new_step d) /\
      last (plan_versions (session st)) = Some (mkPlanVersion t [r]).

(** How the loop ended, for a property [P] of the store and of the step
    the loop was about to test: it never ends by raising. *)
Definition loop_result {W} (P : Store W -> option StepRef -> Prop)
    (o : Outcome W unit) : Prop :=
  match o with
  | Done _ st => P st None
  | OutOfFuel st => exists r, P st (Some r)
  | Raised _ _ => False
  end.

Definition run_result {W} (P : Store W -> option StepRef -> Prop)
    (o : Outcome W AgentSession) : Prop :=
  match o with
  | Done a st => a = session st /\ P st None
  | OutOfFuel st => exists r, P st (Some r)
  | Raised _ _ => False
  end.

(** *** Reading a trace *)

(** The decision calls of a trace, oldest first. *)
Definition decisions (l : list Event) : list (DecisionInput * DecisionOutput) :=
  omap (fun e => match e with EvDecision i o => Some (i, o) | _ => None end) l.

(** The steps entered by [execute_step], oldest first. *)
Definition executed_refs (l : list Event) : list StepRef :=
  omap (fun e => match e with EvExecuteStep r _ => Some r | _ => None end) l.

(** What the decision wrote into a step and the loop never assigns. *)
Definition blueprint (s : Step)
    : Z * string * string * option ToolCode * option string :=
  (index s, description s, type s, code s, conclusion s).

(** *** More concrete sessions *)

(** A whole session: a CODE step that succeeds, then a CONCLUDE step. *)
Definition counting_world : Script :=
  mkScript [] [not_achieved; step_succeeded; achieved] [count_step; report_step]
           [tool_success].

(** Collaborators that never see a goal achieved and always answer with
    the same CODE step. *)
Definition stubborn : AgentLoop unit :=
  mkAgentLoop unit "exploratory"
    (fun w => ("session-1", w))
    (fun _ w => ([], w))
    (fun _ w => (not_achieved, w))
    (fun _ w => (count_step, w))
    (fun _ w => (tool_error, w)).

(** A decision whose type is spelled in lower case. *)
Definition miscased : DecisionOutput :=
  mkDecisionOutput 0 "Count the words of the file" "code"
                   (Some "result = count_words('notes.txt')") None
                   ["Step 0: count the words"].

Definition miscased_world : Script :=
  mkScript [] [not_achieved] [miscased] [tool_success].

(** A session whose only step gets the snapshot [inconsistent]: the
    original goal achieved, its own local goal not. *)
Definition inconsistent_world : Script :=
  mkScript [] [not_achieved; inconsistent] [count_step] [tool_success].

(** A session object that has no plan version yet, and a CODE step
    without its payload. *)
Definition unplanned_store : Store Script :=
  mkStore (mkScript [] [not_achieved] [] [tool_success])
    [new_step count_step]
    (AgentSession_new "session-1" "How many words?") [] [].

Definition bare_step : Step :=
  mkStep 0 "Count the words of the file" "CODE" None None None "pending" None.

Definition bare_store : Store Script :=
  mkStore (mkScript [] [not_achieved] [] [tool_success])
    [bare_step] counting_session [] [].

(** *** What a decision request says *)

(** A request to decide, read against the decision calls [before] it in
    the same run: the first one is the initial request on the opening
    snapshot; a later one is a mid-session request whose plan is the plan
    text of the decision just before, whose version is the number of
    decisions taken so far, and whose completed steps are the steps of all
    those decisions, the current step being the last of them. *)
Definition reports_history {W} (self : AgentLoop W) (query : string)
    (opening : PerceptionSnapshot)
    (before : list (DecisionInput * DecisionOutput)) (input : DecisionInput)
    : Prop :=
  match last before with
  | None => input = InitialRequest (strategy self) query opening
  | Some prev =>
      exists done current failed,
        input = MidSessionRequest (strategy self) query (length before)
                  (out_plan_text prev.2) done current failed /\
        blueprint <$> done = (fun x => blueprint (new_step x.2)) <$> before /\
        Forall (fun s => status s = "completed") done /\
        last done = Some current /\
        exists p, perception current = Some p /\
                  failed = negb (local_goal_achieved p)
  end.

(** *** Reading the step objects *)

(** The failure record that lines 127-132 make of an executed step: a step
    that holds an executor response and a snapshot saying that its local
    goal was not achieved. *)
Definition failure_of (s : Step) : option MemoryRecord :=
  match execution_result s, perception s with
  | Some (ResultResponse resp), Some p =>
      if local_goal_achieved p then None else Some (failure_summary s resp)
  | _, _ => None
  end.

(** The failures of a session, oldest first. *)
Definition failures (l : list Step) : list MemoryRecord := omap failure_of l.

(** * Reasoning about the loop *)

(** ** Frame rules of the monad *)

Section FrameRules.

Context {W : Type} (self : AgentLoop W).
Context (R : Store W -> Store W -> Prop) (Pev : Event -> Prop).
Context (HF : Frame R Pev).

Lemma respects_ret {A} (a : A) : respects R (ret a).
Proof using HF. intros st. apply (frame_refl _ _ HF). Qed.

Lemma respects_raise {A} (e : PyError) : respects R (@raise W A e).
Proof using HF. intros st. apply (frame_refl _ _ HF). Qed.

Lemma respects_out_of_fuel {A} : respects R (@out_of_fuel W A).
Proof using HF. intros st. apply (frame_refl _ _ HF). Qed.

Lemma respects_bind {A B} (m : M W A) (f : A -> M W B) :
  respects R m -> (forall a, respects R (f a)) -> respects R (bind m f).
Proof using HF.
  intros Hm Hf st. unfold bind.
  specialize (Hm st). destruct (m st) as [a st'|e st'|st']; simpl in *; auto.
  eapply (frame_trans _ _ HF); [exact Hm | apply Hf].
Qed.

Lemma respects_unchanged {A} (m : M W A) :
  (forall st, final_store (m st) = st) -> respects R m.
Proof using HF. intros H st. rewrite H. apply (frame_refl _ _ HF). Qed.

Lemma respects_emit e : Pev e -> respects R (emit e).
Proof using HF. intros He st. simpl. by apply (frame_emit _ _ HF). Qed.

Lemma respects_get_session : respects R (@get_session W).
Proof using HF. by apply respects_unchanged. Qed.

Lemma respects_get_session_memory : respects R (@get_session_memory W).
Proof using HF. by apply respects_unchanged. Qed.

Lemma respects_latest_plan_text : respects R (@latest_plan_text W).
Proof using HF.
  apply respects_unchanged. intros st. unfold latest_plan_text.
  by destruct (last _).
Qed.

Lemma respects_deref r : respects R (@deref W r).
Proof using HF.
  apply respects_unchanged. intros st. unfold deref. by destruct (_ !! _).
Qed.

Lemma respects_update_step r f : respects R (@update_step W r f).
Proof using HF.
  intros st. unfold update_step. destruct (_ !! _); simpl.
  - apply (frame_objects _ _ HF).
  - apply (frame_refl _ _ HF).
Qed.

Lemma respects_alloc s : respects R (@alloc W s).
Proof using HF. intros st. apply (frame_objects _ _ HF). Qed.

Lemma respects_add_perception p : respects R (@add_perception W p).
Proof using HF. intros st. apply (frame_perception _ _ HF). Qed.

Lemma respects_mark_complete p a : respects R (@mark_complete W p a).
Proof using HF. intros st. apply (frame_state _ _ HF). Qed.

Lemma respects_add_plan_version t r : respects R (@add_plan_version W t [r]).
Proof using HF. intros st. apply (frame_plan _ _ HF). Qed.

Lemma respects_remember f :
  respects R (window' <- @get_session_memory W ;;
              put_session_memory (remember_failure f window')).
Proof using HF. intros st. apply (frame_memory _ _ HF). Qed.

End FrameRules.

Create HintDb frame discriminated.

#[local] Hint Resolve respects_ret respects_raise respects_out_of_fuel
  respects_emit respects_get_session respects_get_session_memory
  respects_latest_plan_text respects_deref respects_update_step respects_alloc
  respects_add_perception respects_mark_complete respects_add_plan_version
  respects_remember : frame.

(** Walks through a method along its binds and branches. *)
Ltac frame_rules :=
  repeat first
    [ solve [eauto with frame]
    | match goal with
      | |- respects _ (if ?b then _ else _) => destruct b
      | |- respects _ (match ?x with _ => _ end) => destruct x
      end
    | eapply respects_bind; [eassumption | | intros ?] ].

(** ** The methods keep every frame *)

Section FrameMethods.

Context {W : Type} (self : AgentLoop W).
Context (R : Store W -> Store W -> Prop) (Pev : Event -> Prop).
Context (HF : Frame R Pev).
Context (Hother : forall e, is_execute_event e = false -> Pev e).

Lemma respects_live_update_session : respects R (@live_update_session W).
Proof using HF Hother.
  intros st. unfold live_update_session.
  apply (respects_emit R Pev HF). by apply Hother.
Qed.

Lemma respects_search_memory q : respects R (search_memory self q).
Proof using HF Hother.
  intros st. unfold search_memory.
  destruct (memory_search self q (world st)) as [results w].
  eapply (frame_trans _ _ HF); [exact (frame_world _ _ HF w st)|].
  apply (respects_bind R Pev HF); [apply (respects_emit R Pev HF); by apply Hother|].
  intros _. by apply respects_ret with (Pev := Pev).
Qed.

Lemma respects_run_perception q m1 m2 ty plan :
  respects R (run_perception self q m1 m2 ty plan).
Proof using HF Hother.
  intros st. unfold run_perception.
  destruct (perception_run self _ (world st)) as [p w].
  eapply (frame_trans _ _ HF); [exact (frame_world _ _ HF w st)|].
  apply (respects_bind R Pev HF); [apply (respects_emit R Pev HF); by apply Hother|].
  intros _. by apply respects_ret with (Pev := Pev).
Qed.

Lemma respects_call_decision input : respects R (call_decision self input).
Proof using HF Hother.
  intros st. unfold call_decision.
  destruct (decision_run self _ (world st)) as [d w].
  eapply (frame_trans _ _ HF); [exact (frame_world _ _ HF w st)|].
  apply (respects_bind R Pev HF); [apply (respects_emit R Pev HF); by apply Hother|].
  intros _. by apply respects_ret with (Pev := Pev).
Qed.

Lemma respects_call_executor c : respects R (call_executor self c).
Proof using HF Hother.
  intros st. unfold call_executor.
  destruct (run_user_code self _ (world st)) as [d w].
  eapply (frame_trans _ _ HF); [exact (frame_world _ _ HF w st)|].
  apply (respects_bind R Pev HF); [apply (respects_emit R Pev HF); by apply Hother|].
  intros _. by apply respects_ret with (Pev := Pev).
Qed.

Hint Resolve respects_live_update_session respects_search_memory
  respects_run_perception respects_call_decision respects_call_executor : frame.

Lemma respects_handle_perception_completion p :
  respects R (@handle_perception_completion W p).
Proof using HF Hother.
  unfold handle_perception_completion. frame_rules.
  intros st. apply (frame_state _ _ HF).
Qed.

Lemma respects_append_new_plan_version d :
  respects R (@append_new_plan_version W d).
Proof using HF Hother.
  unfold append_new_plan_version, create_step. frame_rules.
Qed.

Lemma respects_run_mid_session_decision q r b :
  respects R (run_mid_session_decision self q r b).
Proof using HF Hother.
  unfold run_mid_session_decision. frame_rules.
  apply (respects_unchanged R Pev HF). intros st. by destruct (mapM _ _).
Qed.

Hint Resolve respects_handle_perception_completion
  respects_append_new_plan_version respects_run_mid_session_decision : frame.

Lemma respects_get_next_step q r : respects R (get_next_step self q r).
Proof using HF Hother. unfold get_next_step. frame_rules. Qed.

Lemma respects_replan_after_failure q r :
  respects R (replan_after_failure self q r).
Proof using HF Hother. unfold replan_after_failure. frame_rules. Qed.

Hint Resolve respects_get_next_step respects_replan_after_failure : frame.

Lemma respects_evaluate_step r q : respects R (evaluate_step self r q).
Proof using HF Hother. unfold evaluate_step. frame_rules. Qed.

Lemma respects_while_step fuel q step :
  (forall r s, Pev (EvExecuteStep r s)) ->
  respects R (while_step self fuel q step).
Proof using HF Hother.
  intros Hexec. revert step.
  induction fuel as [|fuel IH]; intros [r|]; simpl; frame_rules.
Qed.

Lemma respects_run_session fuel q :
  (forall r s, Pev (EvExecuteStep r s)) ->
  respects R (run_session self fuel q).
Proof using HF Hother.
  intros Hexec. unfold run_session, make_initial_decision, create_step.
  frame_rules. by apply respects_while_step.
Qed.

End FrameMethods.

(** ** What each path of the loop computes *)

Section Paths.

Context {W : Type} (self : AgentLoop W).

Implicit Types (st : Store W) (r : StepRef) (s : Step).

Lemma execute_step_nop_eq r s st :
  objects st !! r = Some s ->
  type s = "NOP" ->
  execute_step self r st =
    Done None
      (mkStore (world st)
         (<[r := with_status "clarification_needed" s]> (objects st))
         (session st) (session_memory st)
         ((trace st ++ [mkObservation (EvExecuteStep r s) (session_memory st)])
          ++ [mkObservation
                (EvLiveUpdate (session st)
                   (<[r := with_status "clarification_needed" s]> (objects st)))
                (session_memory st)])).
Proof.
  intros Hs Hty. unfold execute_step, bind, deref. rewrite Hs. simpl.
  rewrite Hty. simpl. unfold update_step. simpl. rewrite Hs. reflexivity.
Qed.

Lemma lookup_insert_object (l : list Step) r s x :
  l !! r = Some s -> <[r := x]> l !! r = Some x.
Proof. intros H. apply list_lookup_insert_eq. by eapply lookup_lt_Some. Qed.

Lemma execute_step_code_eq r s tc c resp w1 v p w2 st :
  objects st !! r = Some s ->
  type s = "CODE" ->
  code s = Some tc ->
  tool_arguments tc !! "code" = Some c ->
  run_user_code self c (world st) = (resp, w1) ->
  last (plan_versions (session st)) = Some v ->
  perception_run self
    (step_result_input (Some (default "Tool Failed" (result resp))) st v) w1
    = (p, w2) ->
  let objs := <[r := executed_code resp p s]> (objects st) in
  let window :=
    if local_goal_achieved p then session_memory st
    else remember_failure (failure_summary s resp) (session_memory st) in
  execute_step self r st =
    Done (Some r)
      (mkStore w2 objs (session st) window
         (trace st ++
          [mkObservation (EvExecuteStep r s) (session_memory st);
           mkObservation (EvExecutor c resp) (session_memory st);
           mkObservation
             (EvPerception
                (step_result_input (Some (default "Tool Failed" (result resp))) st v) p)
             (session_memory st);
           mkObservation (EvLiveUpdate (session st) objs) window])).
Proof.
  intros Hs Hty Hcode Hc Hrun Hlast Hper objs window.
  unfold execute_step, bind, deref. rewrite Hs. simpl.
  rewrite Hty, Hcode. simpl. rewrite Hc. simpl.
  unfold call_executor, bind. simpl. rewrite Hrun. simpl.
  unfold update_step. simpl. rewrite Hs.
  simpl. rewrite (lookup_insert_object _ _ _ _ Hs). simpl.
  unfold latest_plan_text. simpl. rewrite Hlast.
  unfold run_perception, bind. simpl.
  unfold step_result_input in Hper. simpl in Hper. rewrite Hper. simpl.
  rewrite !list_insert_insert_eq.
  rewrite (lookup_insert_object _ _ _ _ Hs). simpl.
  rewrite !list_insert_insert_eq.
  rewrite (lookup_insert_object _ _ _ _ Hs).
  subst objs window. unfold executed_code, failure_summary, step_result_input.
  destruct (local_goal_achieved p); simpl;
    rewrite ?list_insert_insert_eq, <- ?app_assoc; reflexivity.
Qed.

Lemma execute_step_conclude_eq r s v p w1 st :
  objects st !! r = Some s ->
  type s = "CONCLUDE" ->
  last (plan_versions (session st)) = Some v ->
  perception_run self (step_result_input (conclusion s) st v) (world st) = (p, w1) ->
  let objs := <[r := executed_conclude p s]> (objects st) in
  let done := with_state (completed_state p (conclusion s)) (session st) in
  execute_step self r st =
    Done None
      (mkStore w1 objs done (session_memory st)
         (trace st ++
          [mkObservation (EvExecuteStep r s) (session_memory st);
           mkObservation (EvPerception (step_result_input (conclusion s) st v) p)
                         (session_memory st);
           mkObservation (EvLiveUpdate done objs) (session_memory st)])).
Proof.
  intros Hs Hty Hlast Hper objs done.
  unfold execute_step, bind, deref. rewrite Hs. simpl.
  rewrite Hty. simpl.
  unfold update_step. simpl. rewrite Hs.
  simpl. rewrite (lookup_insert_object _ _ _ _ Hs). simpl.
  unfold latest_plan_text. simpl. rewrite Hlast.
  unfold run_perception, bind. simpl.
  unfold step_result_input in Hper. simpl in Hper. rewrite Hper. simpl.
  rewrite !list_insert_insert_eq.
  rewrite (lookup_insert_object _ _ _ _ Hs). simpl.
  subst objs done. unfold executed_conclude, step_result_input.
  rewrite ?list_insert_insert_eq, <- ?app_assoc. reflexivity.
Qed.

(** A step of any other type: nothing but the entry is seen. *)
Lemma execute_step_other_eq r s st :
  objects st !! r = Some s ->
  type s <> "CODE" -> type s <> "CONCLUDE" -> type s <> "NOP" ->
  execute_step self r st =
    Done None
      (with_trace
         (trace st ++ [mkObservation (EvExecuteStep r s) (session_memory st)]) st).
Proof.
  intros Hs H1 H2 H3. unfold execute_step, bind, deref. rewrite Hs. simpl.
  apply String.eqb_neq in H1, H2, H3. by rewrite H1, H2, H3.
Qed.

Lemma append_new_plan_version_eq d st :
  append_new_plan_version d st = Done (Some (length (objects st))) (appended d st).
Proof. reflexivity. Qed.

Lemma run_mid_session_decision_eq q r s v all b d w1 st :
  objects st !! r = Some s ->
  last (plan_versions (session st)) = Some v ->
  deref_all st (session_steps st) = Some all ->
  decision_run self (mid_session_request self q v all s b st) (world st) = (d, w1) ->
  run_mid_session_decision self q r b st =
    Done d (decided (mid_session_request self q v all s b st) d w1 st).
Proof.
  intros Hs Hlast Hall Hd.
  unfold run_mid_session_decision, bind, get_session, latest_plan_text, deref.
  rewrite Hlast. unfold deref_all, session_steps in Hall. rewrite Hall, Hs.
  unfold call_decision, bind. unfold mid_session_request in Hd.
  rewrite Hd. reflexivity.
Qed.

End Paths.

(** ** Frames used below *)

Lemma extends_by_frame {W} (Pev : Event -> Prop) : Frame (@extends_by W Pev) Pev.
Proof.
  split.
  - intros st. exists []. by rewrite app_nil_r.
  - intros a b c (l1 & H1 & F1) (l2 & H2 & F2). exists (l1 ++ l2). split.
    + by rewrite H2, H1, app_assoc.
    + by apply Forall_app.
  - intros e st He. eexists. split; [reflexivity|]. by apply Forall_singleton.
  - intros w st. exists []. by rewrite app_nil_r.
  - intros w st. exists []. by rewrite app_nil_r.
  - intros w st. exists []. by rewrite app_nil_r.
  - intros w st. exists []. by rewrite app_nil_r.
  - intros t r st. exists []. by rewrite app_nil_r.
  - intros f st. exists []. by rewrite app_nil_r.
Qed.

Lemma remember_failure_length f (l : list MemoryRecord) :
  length l <= GLOBAL_PREVIOUS_FAILURE_STEPS ->
  length (remember_failure f l) <= GLOBAL_PREVIOUS_FAILURE_STEPS.
Proof.
  unfold remember_failure, GLOBAL_PREVIOUS_FAILURE_STEPS. intros H.
  destruct (Nat.ltb_spec 3 (length (l ++ [f]))) as [Hlt|Hge]; [|lia].
  rewrite length_app in Hlt. simpl in Hlt.
  destruct l as [|x l]; simpl in *; [lia|]. rewrite length_app. simpl. lia.
Qed.

Lemma window_bounded_frame {W} : Frame (keeps (@window_bounded W)) (fun _ => True).
Proof.
  split; unfold keeps, window_bounded; simpl; try tauto.
  - intros e st _ [Hw Ht]. split; [done|].
    apply Forall_app. split; [done|]. by apply Forall_singleton.
  - intros f st [Hw Ht]. split; [|done]. by apply remember_failure_length.
Qed.

Lemma plans_populated_frame {W} : Frame (keeps (@plans_populated W)) (fun _ => True).
Proof.
  split; unfold keeps, plans_populated; simpl; try tauto.
  intros t r st H. apply Forall_app. split; [done|].
  apply Forall_singleton. by exists r.
Qed.

Lemma plans_started_frame {W} : Frame (keeps (@plans_started W)) (fun _ => True).
Proof.
  split; unfold keeps, plans_started; simpl; try tauto.
  intros t r st H. by destruct (plan_versions (session st)).
Qed.

(** ** The opening phase of [run] *)

Section Run.

Context {W : Type} (self : AgentLoop W).

Lemma run_fast fuel query w :
  original_goal_achieved (opening_perception self query w) = true ->
  run self fuel query w = Done (session (answered self query w)) (answered self query w).
Proof.
  unfold answered, opened, opening_perception, opening_input, opening_memory, run.
  destruct (uuid4 self w) as [sid w1]. simpl.
  unfold run_session, bind, search_memory. simpl.
  destruct (memory_search self query w1) as [results w2]. simpl.
  unfold run_perception. simpl.
  destruct (perception_run self _ w2) as [p w3]. simpl.
  intros ->. reflexivity.
Qed.

Lemma run_slow fuel query w :
  original_goal_achieved (opening_perception self query w) = false ->
  run self fuel query w =
    (decision_output <- make_initial_decision self query
                          (opening_perception self query w) ;;
     first <- create_step decision_output ;;
     step <- add_plan_version (out_plan_text decision_output) [first] ;;
     live_update_session ;;;
     while_step self fuel query step ;;;
     get_session) (opened self query w).
Proof.
  unfold opened, opening_perception, opening_input, opening_memory, run.
  destruct (uuid4 self w) as [sid w1]. simpl.
  unfold run_session at 1. unfold bind at 1. unfold search_memory. simpl.
  destruct (memory_search self query w1) as [results w2]. simpl.
  unfold bind at 1. unfold run_perception. simpl.
  destruct (perception_run self _ w2) as [p w3]. simpl.
  intros ->. reflexivity.
Qed.

Lemma run_planned fuel query w :
  original_goal_achieved (opening_perception self query w) = false ->
  run self fuel query w =
    (live_update_session ;;;
     while_step self fuel query (Some 0) ;;;
     get_session) (planned self query w).
Proof.
  intros H. rewrite run_slow by done.
  unfold planned, initial_decision, initial_request.
  unfold bind at 1. unfold make_initial_decision, call_decision. simpl.
  destruct (decision_run self _ _) as [d w4]. reflexivity.
Qed.

Lemma returns_session_bind {A} (m : M W A) f :
  (forall x, returns_session (f x)) -> returns_session (bind m f).
Proof.
  intros Hf st a st'. unfold bind. destruct (m st); try done. apply Hf.
Qed.

Lemma run_returns_session fuel query w a st :
  run self fuel query w = Done a st -> a = session st.
Proof.
  destruct (original_goal_achieved (opening_perception self query w)) eqn:H.
  - rewrite run_fast by done. by intros [= <- <-].
  - rewrite run_planned by done.
    apply returns_session_bind. intros _. apply returns_session_bind.
    intros _ st1 a1 st1'. by intros [= <- <-].
Qed.

(** Whatever [run] does after plan version 1 keeps a frame that allows
    every event. *)
Lemma run_planned_frame (R : Store W -> Store W -> Prop) fuel query w :
  Frame R (fun _ => True) ->
  original_goal_achieved (opening_perception self query w) = false ->
  R (planned self query w) (final_store (run self fuel query w)).
Proof.
  intros HF H. rewrite run_planned by done.
  revert fuel. generalize (planned self query w). intros st fuel. revert st.
  change (respects R (live_update_session ;;;
                      while_step self fuel query (Some 0) ;;; get_session)).
  assert (respects R (while_step self fuel query (Some 0)))
    by (by eapply respects_while_step).
  frame_rules. by eapply respects_live_update_session.
Qed.

(** The whole of [run] keeps such a frame. *)
Lemma run_frame (R : Store W -> Store W -> Prop) fuel query w :
  Frame R (fun _ => True) ->
  R (mkStore (snd (uuid4 self w)) []
       (AgentSession_new (fst (uuid4 self w)) query) [] [])
    (final_store (run self fuel query w)).
Proof.
  intros HF. unfold run. destruct (uuid4 self w) as [sid w1]. simpl.
  by eapply respects_run_session.
Qed.

End Run.

(** * The laws of the loop *)

(** ** The opening phase: fast path and memory context *)

Section OpeningLaws.

Context {W : Type} (self : AgentLoop W).

(** C1 (fast-path law).  When the opening perception call of [run] reports
    the original goal achieved, [run] returns the session, whatever the
    fuel; the session is the one of the final store; the whole trace is the
    memory search, that one perception call and one live update, so that no
    decision call, no executor call and no step execution happens; and the
    session state holds [original_goal_achieved = true] with the final
    answer, the confidence and the reasoning note of the perception
    output. *)
Theorem fast_path_law (fuel : nat) (query : string) (w : W) :
  original_goal_achieved (opening_perception self query w) = true ->
  exists st,
    run self fuel query w = Done (session st) st /\
    events st =
      [EvMemorySearch query (opening_memory self query w);
       EvPerception (opening_input self query w) (opening_perception self query w);
       EvLiveUpdate (session st) []] /\
    Forall (fun e => is_decision_event e = false /\
                     is_executor_event e = false /\
                     is_execute_event e = false) (events st) /\
    state_original_goal_achieved (state (session st)) = true /\
    final_answer (state (session st)) =
      Some (solution_summary (opening_perception self query w)) /\
    state_confidence (state (session st)) =
      Some (confidence (opening_perception self query w)) /\
    reasoning_note (state (session st)) =
      Some (reasoning (opening_perception self query w)) /\
    objects st = [] /\
    plan_versions (session st) = [].
Proof.
  intros H. exists (answered self query w). split; [by apply run_fast|].
  split; [reflexivity|]. split; [|done].
  unfold events. simpl. by repeat constructor.
Qed.

(** C10 (the opening memory context).  The trace of [run] starts with the
    memory search and the opening perception call, and the memory handed to
    that call is the search result followed by itself: every retrieved
    record is found at its position and again one result-length later. *)
Theorem opening_memory_doubled (fuel : nat) (query : string) (w : W) :
  let results := opening_memory self query w in
  let given := memory (opening_input self query w) in
  (exists rest,
     events (final_store (run self fuel query w)) =
       EvMemorySearch query results ::
       EvPerception (opening_input self query w) (opening_perception self query w) ::
       rest) /\
  given = results ++ results /\
  length given = 2 * length results /\
  (forall i record, results !! i = Some record ->
     given !! i = Some record /\ given !! (length results + i) = Some record).
Proof.
  intros results given. subst results given. split; [|split; [done|split]].
  - destruct (original_goal_achieved (opening_perception self query w)) eqn:H.
    + rewrite run_fast by done. by eexists.
    + destruct (run_planned_frame self (extends_by (fun _ => True)) fuel query w)
        as (l & Hl & _); [apply extends_by_frame | done |].
      unfold events. rewrite Hl. simpl. by eexists.
  - simpl. rewrite length_app. lia.
  - simpl. intros i record Hi. split.
    + by apply lookup_app_l_Some.
    + rewrite lookup_app_r by lia.
      by replace (length (opening_memory self query w) + i
                  - length (opening_memory self query w)) with i by lia.
Qed.

End OpeningLaws.

Lemma fast_path_law_witness :
  original_goal_achieved (opening_perception scripted "capital of France" lookup_world)
    = true /\
  exists st,
    run scripted 0 "capital of France" lookup_world = Done (session st) st /\
    final_answer (state (session st)) = Some "Paris".
Proof.
  split; [reflexivity|].
  destruct (fast_path_law scripted 0 "capital of France" lookup_world eq_refl)
    as (st & Hrun & _ & _ & _ & Hanswer & _).
  exists st. split; [exact Hrun | exact Hanswer].
Defined.

Lemma opening_memory_doubled_witness :
  opening_memory scripted "capital of France" lookup_world !! 0 = Some remembered /\
  memory (opening_input scripted "capital of France" lookup_world) !! 0
    = Some remembered /\
  memory (opening_input scripted "capital of France" lookup_world) !! 1
    = Some remembered.
Proof.
  split; [reflexivity|].
  exact (proj2 (proj2 (proj2
    (opening_memory_doubled scripted 0 "capital of France" lookup_world)))
    0 remembered eq_refl).
Defined.

(** ** The failure memory *)

Section FailureMemory.

Context {W : Type} (self : AgentLoop W).

(** C2 (bounded failure memory).  In every run, however it ends, each
    trace entry (so each perception and each decision call) sees a failure
    memory of at most 3 entries, and so does the final store; adding a
    failure to a window of three drops exactly the oldest and keeps the
    others in order; and this is what [execute_step] does to a full window
    when the perception of a CODE step's result reports the local goal as
    not achieved. *)
Theorem failure_memory_window (fuel : nat) (query : string) (w : W) :
  Forall (fun o => length (obs_window o) <= 3)
         (trace (final_store (run self fuel query w))) /\
  length (session_memory (final_store (run self fuel query w))) <= 3 /\
  (forall a b c d, remember_failure d [a; b; c] = [b; c; d]) /\
  (forall r s tc c resp w1 v p w2 st m1 m2 m3,
     objects st !! r = Some s ->
     type s = "CODE" ->
     code s = Some tc ->
     tool_arguments tc !! "code" = Some c ->
     run_user_code self c (world st) = (resp, w1) ->
     last (plan_versions (session st)) = Some v ->
     perception_run self
       (step_result_input (Some (default "Tool Failed" (result resp))) st v) w1
       = (p, w2) ->
     local_goal_achieved p = false ->
     session_memory st = [m1; m2; m3] ->
     session_memory (final_store (execute_step self r st))
       = [m2; m3; failure_summary s resp]).
Proof.
  assert (window_bounded (final_store (run self fuel query w))) as [Hw Ht].
  { apply (run_frame self (keeps window_bounded) fuel query w).
    - apply window_bounded_frame.
    - split; simpl; [unfold GLOBAL_PREVIOUS_FAILURE_STEPS; lia | constructor]. }
  split; [exact Ht|]. split; [exact Hw|]. split; [reflexivity|].
  intros r s tc c resp w1 v p w2 st m1 m2 m3 Hs Hty Hcode Hc Hrun Hlast Hper Hloc Hmem.
  rewrite (execute_step_code_eq self r s tc c resp w1 v p w2 st) by done.
  simpl. by rewrite Hloc, Hmem.
Qed.

End FailureMemory.

Lemma failure_memory_window_witness :
  session_memory failing_store
    = [earlier_failure "first"; earlier_failure "second"; earlier_failure "third"] /\
  session_memory (final_store (execute_step scripted 0 failing_store))
    = [earlier_failure "second"; earlier_failure "third";
       failure_summary (new_step count_step) tool_error].
Proof.
  split; [reflexivity|].
  apply (proj2 (proj2 (proj2
    (failure_memory_window scripted 0 "How many words?" lookup_world)))
    0 (new_step count_step)
    (mkToolCode "raw_code_block" {[ "code" := out_code count_step ]})
    (out_code count_step) tool_error
    (mkScript [] [not_achieved] [report_step] [])
    (mkPlanVersion (out_plan_text count_step) [0])
    not_achieved
    (mkScript [] [] [report_step] [])
    failing_store
    (earlier_failure "first") (earlier_failure "second") (earlier_failure "third"));
    vm_compute; reflexivity.
Defined.

(** ** Plan versions *)

Section PlanVersions.

Context {W : Type} (self : AgentLoop W).

(** C3, as amended.  Whenever [run] returns, every plan version of the
    returned session has a non-empty step list; the session has at least
    one plan version when the opening perception did not report the
    original goal achieved, and none when it did. *)
Theorem plan_versions_after_run (fuel : nat) (query : string) (w : W)
    (a : AgentSession) (st : Store W) :
  run self fuel query w = Done a st ->
  Forall (fun v => steps v <> []) (plan_versions a) /\
  (original_goal_achieved (opening_perception self query w) = false ->
     1 <= length (plan_versions a)) /\
  (original_goal_achieved (opening_perception self query w) = true ->
     plan_versions a = []).
Proof.
  intros Hrun.
  pose proof (run_returns_session self _ _ _ _ _ Hrun) as ->.
  pose proof (run_frame self (keeps plans_populated) fuel query w
                plans_populated_frame) as Hpopulated.
  rewrite Hrun in Hpopulated. simpl in Hpopulated. split; [|split].
  - assert (plans_populated st) as H by (apply Hpopulated; constructor).
    eapply Forall_impl; [exact H|]. by intros v [r ->].
  - intros Hopen.
    pose proof (run_planned_frame self (keeps plans_started) fuel query w
                  plans_started_frame Hopen) as Hstarted.
    rewrite Hrun in Hstarted. simpl in Hstarted.
    assert (plans_started st) as H by (by apply Hstarted).
    unfold plans_started in H. destruct (plan_versions (session st)); [done|].
    simpl. lia.
  - intros Hopen. rewrite run_fast in Hrun by done. by injection Hrun as _ <-.
Qed.

End PlanVersions.

(** C3 as stated fails: on the fast path [run] returns a session without
    any plan version. *)
Lemma plan_versions_empty_on_fast_path :
  original_goal_achieved (opening_perception scripted "capital of France" lookup_world)
    = true /\
  plan_versions <$> returned (run scripted 0 "capital of France" lookup_world)
    = Some [].
Proof. split; vm_compute; reflexivity. Qed.

Lemma plan_versions_after_run_witness :
  original_goal_achieved (opening_perception scripted "Which city?" clarify_world)
    = false /\
  exists a st,
    run scripted 1 "Which city?" clarify_world = Done a st /\
    1 <= length (plan_versions a) /\
    Forall (fun v => steps v <> []) (plan_versions a).
Proof.
  split; [reflexivity|].
  destruct (run scripted 1 "Which city?" clarify_world) as [a st|e st|st] eqn:Hrun.
  - exists a, st. split; [reflexivity|].
    destruct (plan_versions_after_run scripted 1 "Which city?" clarify_world
                a st Hrun) as (Hsteps & Hsome & _).
    split; [exact (Hsome eq_refl) | exact Hsteps].
  - vm_compute in Hrun. discriminate Hrun.
  - vm_compute in Hrun. discriminate Hrun.
Defined.

(** ** The evaluation policy *)

Section Evaluation.

Context {W : Type} (self : AgentLoop W).

(** [evaluate_step] on a step that carries a snapshot. *)
Lemma evaluate_step_cases (r : StepRef) (s : Step) (p : PerceptionSnapshot)
    (query : string) (st : Store W) :
  objects st !! r = Some s ->
  perception s = Some p ->
  evaluate_step self r query st =
    (if original_goal_achieved p
     then (mark_complete p None ;;; live_update_session ;;; ret None) st
     else if local_goal_achieved p
          then get_next_step self query r st
          else replan_after_failure self query r st).
Proof.
  intros Hs Hp. unfold evaluate_step, bind at 1, deref. rewrite Hs.
  unfold bind at 1. rewrite Hp. simpl.
  by destruct (original_goal_achieved p), (local_goal_achieved p).
Qed.

End Evaluation.

Section Advance.

Context {W : Type} (self : AgentLoop W).

Lemma get_next_step_eq r s v all query d w1 st :
  objects st !! r = Some s ->
  last (plan_versions (session st)) = Some v ->
  deref_all st (session_steps st) = Some all ->
  (index s + 1 < Z.of_nat (length (plan_text v)))%Z ->
  decision_run self (mid_session_request self query v all s false st) (world st)
    = (d, w1) ->
  get_next_step self query r st =
    Done (Some (length (objects st)))
      (appended d (decided (mid_session_request self query v all s false st) d w1 st)).
Proof.
  intros Hs Hlast Hall Hlt Hd.
  unfold get_next_step, bind at 1, latest_plan_text. rewrite Hlast.
  unfold bind at 1, deref. rewrite Hs.
  apply Z.ltb_lt in Hlt. rewrite Hlt.
  unfold bind. erewrite run_mid_session_decision_eq by done.
  by rewrite append_new_plan_version_eq.
Qed.

Lemma get_next_step_exhausted r s v query st :
  objects st !! r = Some s ->
  last (plan_versions (session st)) = Some v ->
  ~ (index s + 1 < Z.of_nat (length (plan_text v)))%Z ->
  get_next_step self query r st = Done None st.
Proof.
  intros Hs Hlast Hge.
  unfold get_next_step, bind at 1, latest_plan_text. rewrite Hlast.
  unfold bind at 1, deref. rewrite Hs.
  apply Z.ltb_nlt in Hge. by rewrite Hge.
Qed.

Lemma replan_after_failure_eq r s v all query d w1 st :
  objects st !! r = Some s ->
  last (plan_versions (session st)) = Some v ->
  deref_all st (session_steps st) = Some all ->
  decision_run self (mid_session_request self query v all s true st) (world st)
    = (d, w1) ->
  replan_after_failure self query r st =
    Done (Some (length (objects st)))
      (appended d (decided (mid_session_request self query v all s true st) d w1 st)).
Proof.
  intros Hs Hlast Hall Hd. unfold replan_after_failure.
  unfold bind. erewrite run_mid_session_decision_eq by done.
  by rewrite append_new_plan_version_eq.
Qed.

(** C5 (advance law).  Take a step whose snapshot says: original goal not
    achieved, local goal achieved.  If [index + 1] is below the number of
    lines of the latest plan text, [evaluate_step] asks for exactly one
    mid-session decision, with [step_failed = false], creates one new step
    object from its output and appends one plan version holding that step:
    the number of plan versions grows by one, the earlier versions and the
    earlier step objects are as before, and the step handed back to the
    loop is the new one.  If there is no such line, [evaluate_step] returns
    [None] and changes nothing. *)
Theorem advance_law (r : StepRef) (s : Step) (p : PerceptionSnapshot)
    (v : PlanVersion) (all : list Step) (query : string) (st : Store W) :
  objects st !! r = Some s ->
  perception s = Some p ->
  original_goal_achieved p = false ->
  local_goal_achieved p = true ->
  last (plan_versions (session st)) = Some v ->
  deref_all st (session_steps st) = Some all ->
  let request :=
    MidSessionRequest (strategy self) query (length (plan_versions (session st)))
      (plan_text v) (filter (fun s => status s = "completed") all) s false in
  let d := fst (decision_run self request (world st)) in
  let new := length (objects st) in
  ((index s + 1 < Z.of_nat (length (plan_text v)))%Z ->
     exists st',
       evaluate_step self r query st = Done (Some new) st' /\
       events st' =
         events st ++ [EvDecision request d; EvLiveUpdate (session st') (objects st')] /\
       plan_versions (session st') =
         plan_versions (session st) ++ [mkPlanVersion (out_plan_text d) [new]] /\
       length (plan_versions (session st')) = S (length (plan_versions (session st))) /\
       objects st' = objects st ++ [new_step d] /\
       objects st' !! new = Some (new_step d) /\
       (forall fuel,
          (next <- evaluate_step self r query ;; while_step self fuel query next) st
            = while_step self fuel query (Some new) st')) /\
  (~ (index s + 1 < Z.of_nat (length (plan_text v)))%Z ->
     evaluate_step self r query st = Done None st /\
     (forall fuel,
        (next <- evaluate_step self r query ;; while_step self fuel query next) st
          = Done tt st)).
Proof.
  intros Hs Hp Ho Hl Hlast Hall request d new.
  pose proof (evaluate_step_cases self r s p query st Hs Hp) as Hnext.
  rewrite Ho, Hl in Hnext. split.
  - intros Hlt.
    destruct (decision_run self request (world st)) as [d' w1] eqn:Hd.
    simpl in d. subst d.
    eexists. split.
    { rewrite Hnext. by eapply get_next_step_eq. }
    split; [|split; [done|split; [|split; [done|split]]]].
    + unfold events. simpl. by rewrite !map_app, <- app_assoc.
    + simpl. rewrite length_app. simpl. lia.
    + simpl. by rewrite lookup_app_r, Nat.sub_diag by done.
    + intros fuel. unfold bind at 1. rewrite Hnext.
      by erewrite get_next_step_eq by done.
  - intros Hge.
    assert (evaluate_step self r query st = Done None st) as E
      by (rewrite Hnext; by eapply get_next_step_exhausted).
    split; [done|]. intros fuel. unfold bind. rewrite E. by destruct fuel.
Qed.

End Advance.

Lemma advance_law_witness :
  objects (judged_store step_succeeded) !! 0
    = Some (executed_code tool_success step_succeeded (new_step count_step)) /\
  (index (new_step count_step) + 1
     < Z.of_nat (length (out_plan_text count_step)))%Z /\
  exists st',
    evaluate_step scripted 0 "How many words?" (judged_store step_succeeded)
      = Done (Some 1) st' /\
    length (plan_versions (session st')) = 2.
Proof.
  split; [reflexivity|]. split; [reflexivity|].
  destruct (proj1 (advance_law scripted 0
      (executed_code tool_success step_succeeded (new_step count_step))
      step_succeeded
      (mkPlanVersion (out_plan_text count_step) [0])
      [executed_code tool_success step_succeeded (new_step count_step)]
      "How many words?" (judged_store step_succeeded)
      eq_refl eq_refl eq_refl eq_refl eq_refl eq_refl) eq_refl)
    as (st' & Heval & _ & _ & Hlen & _).
  exists st'. split; [exact Heval | exact Hlen].
Defined.

Section Priority.

Context {W : Type} (self : AgentLoop W).

(** C4 (strict evaluation priority).  For a step that carries a snapshot,
    [evaluate_step] reads the snapshot in this order.  If it says that the
    original goal is achieved, whatever it says of the local goal, the
    session is marked complete with that snapshot and no final-answer
    override (the final answer is the snapshot's summary), [None] is
    returned without raising, no decision is asked and the loop ends
    there.  Otherwise, if it says that the local goal is achieved, the loop
    advances: when the latest plan text has a line after the step's index,
    one decision is asked with [step_failed = false], its step becomes a
    new object and a new plan version, and the loop goes on with that
    step; when it has none, [None] is returned, nothing changes and the
    loop ends.  Otherwise the loop replans: one decision is asked with
    [step_failed = true], whatever the index, its step becomes a new object
    and a new plan version, and the loop goes on with that step.  Neither
    advancing nor replanning writes the session state. *)
Theorem evaluate_step_priority (r : StepRef) (s : Step) (p : PerceptionSnapshot)
    (query : string) (st : Store W) :
  objects st !! r = Some s ->
  perception s = Some p ->
  let request v all failed :=
    MidSessionRequest (strategy self) query (length (plan_versions (session st)))
      (plan_text v) (filter (fun s => status s = "completed") all) s failed in
  let new := length (objects st) in
  let goes_on v all failed st' :=
    let d := fst (decision_run self (request v all failed) (world st)) in
    evaluate_step self r query st = Done (Some new) st' /\
    events st' =
      events st ++ [EvDecision (request v all failed) d;
                    EvLiveUpdate (session st') (objects st')] /\
    plan_versions (session st') =
      plan_versions (session st) ++ [mkPlanVersion (out_plan_text d) [new]] /\
    objects st' = objects st ++ [new_step d] /\
    state (session st') = state (session st) /\
    (forall fuel,
       (next <- evaluate_step self r query ;; while_step self fuel query next) st
         = while_step self fuel query (Some new) st') in
  (original_goal_achieved p = true ->
     evaluate_step self r query st = Done None (completed p st) /\
     state (session (completed p st)) = completed_state p None /\
     final_answer (state (session (completed p st))) = Some (solution_summary p) /\
     state_original_goal_achieved (state (session (completed p st))) = true /\
     decisions (events (completed p st)) = decisions (events st) /\
     plan_versions (session (completed p st)) = plan_versions (session st) /\
     (forall fuel,
        (next <- evaluate_step self r query ;; while_step self fuel query next) st
          = Done tt (completed p st))) /\
  (original_goal_achieved p = false -> local_goal_achieved p = true ->
   forall v all,
     last (plan_versions (session st)) = Some v ->
     deref_all st (session_steps st) = Some all ->
     ((index s + 1 < Z.of_nat (length (plan_text v)))%Z ->
        exists st', goes_on v all false st') /\
     (~ (index s + 1 < Z.of_nat (length (plan_text v)))%Z ->
        evaluate_step self r query st = Done None st /\
        (forall fuel,
           (next <- evaluate_step self r query ;; while_step self fuel query next) st
             = Done tt st))) /\
  (original_goal_achieved p = false -> local_goal_achieved p = false ->
   forall v all,
     last (plan_versions (session st)) = Some v ->
     deref_all st (session_steps st) = Some all ->
     exists st', goes_on v all true st').
Proof.
  intros Hs Hp request new goes_on.
  pose proof (evaluate_step_cases self r s p query st Hs Hp) as Heval.
  assert (forall v all failed d w1,
            decision_run self (request v all failed) (world st) = (d, w1) ->
            evaluate_step self r query st
              = Done (Some new) (appended d (decided (request v all failed) d w1 st)) ->
            goes_on v all failed (appended d (decided (request v all failed) d w1 st)))
    as Hgoes.
  { intros v all failed d w1 Hd E. unfold goes_on. rewrite Hd. simpl.
    split; [exact E|].
    split; [unfold events; simpl; by rewrite !map_app, <- app_assoc|].
    split; [done|]. split; [done|]. split; [done|].
    intros fuel. unfold bind at 1. by rewrite E. }
  split; [|split].
  - intros Ho. rewrite Ho in Heval.
    assert (evaluate_step self r query st = Done None (completed p st)) as E
      by (by rewrite Heval).
    split; [exact E|]. split; [reflexivity|]. split; [reflexivity|].
    split; [exact Ho|].
    split.
    { unfold events, decisions. simpl. rewrite map_app, omap_app. simpl.
      by rewrite app_nil_r. }
    split; [reflexivity|].
    intros fuel. unfold bind at 1. rewrite E. by destruct fuel.
  - intros Ho Hl v all Hlast Hall. rewrite Ho, Hl in Heval. split.
    + intros Hlt.
      destruct (decision_run self (request v all false) (world st))
        as [d w1] eqn:Hd.
      eexists. apply (Hgoes v all false d w1 Hd).
      rewrite Heval. by eapply get_next_step_eq.
    + intros Hge.
      assert (evaluate_step self r query st = Done None st) as E
        by (rewrite Heval; by eapply get_next_step_exhausted).
      split; [done|]. intros fuel. unfold bind. rewrite E. by destruct fuel.
  - intros Ho Hl v all Hlast Hall. rewrite Ho, Hl in Heval.
    destruct (decision_run self (request v all true) (world st))
      as [d w1] eqn:Hd.
    eexists. apply (Hgoes v all true d w1 Hd).
    rewrite Heval. by eapply replan_after_failure_eq.
Qed.

End Priority.

Lemma evaluate_step_priority_witness :
  (evaluate_step scripted 0 "How many words?" (judged_store inconsistent)
     = Done None (completed inconsistent (judged_store inconsistent))) /\
  (exists st',
     evaluate_step scripted 0 "How many words?" (judged_store step_succeeded)
       = Done (Some 1) st' /\
     decisions (events st')
       = [(MidSessionRequest "exploratory" "How many words?" 1
             (out_plan_text count_step)
             [executed_code tool_success step_succeeded (new_step count_step)]
             (executed_code tool_success step_succeeded (new_step count_step))
             false, report_step)]) /\
  (exists st',
     evaluate_step scripted 0 "How many words?" (judged_store not_achieved)
       = Done (Some 1) st' /\
     decisions (events st')
       = [(MidSessionRequest "exploratory" "How many words?" 1
             (out_plan_text count_step)
             [executed_code tool_success not_achieved (new_step count_step)]
             (executed_code tool_success not_achieved (new_step count_step))
             true, report_step)] /\
     length (plan_versions (session st')) = 2).
Proof.
  split; [|split].
  - exact (proj1 (proj1
      (evaluate_step_priority scripted 0
         (executed_code tool_success inconsistent (new_step count_step))
         inconsistent "How many words?" (judged_store inconsistent)
         eq_refl eq_refl) eq_refl)).
  - destruct (proj1 (proj1 (proj2
      (evaluate_step_priority scripted 0
         (executed_code tool_success step_succeeded (new_step count_step))
         step_succeeded "How many words?" (judged_store step_succeeded)
         eq_refl eq_refl)) eq_refl eq_refl
         (mkPlanVersion (out_plan_text count_step) [0])
         [executed_code tool_success step_succeeded (new_step count_step)]
         eq_refl eq_refl) eq_refl)
      as (st' & Heval & Hev & _).
    exists st'. split; [exact Heval|]. rewrite Hev. reflexivity.
  - destruct (proj2 (proj2
      (evaluate_step_priority scripted 0
         (executed_code tool_success not_achieved (new_step count_step))
         not_achieved "How many words?" (judged_store not_achieved)
         eq_refl eq_refl)) eq_refl eq_refl
         (mkPlanVersion (out_plan_text count_step) [0])
         [executed_code tool_success not_achieved (new_step count_step)]
         eq_refl eq_refl)
      as (st' & Heval & Hev & Hpvs & _).
    exists st'. split; [exact Heval|]. split; [rewrite Hev; reflexivity|].
    rewrite Hpvs. reflexivity.
Defined.

Section Replan.

Context {W : Type} (self : AgentLoop W).

Lemma slice_to_length n (text : string) : String.length (slice_to n text) <= n.
Proof.
  unfold slice_to. revert text.
  induction n as [|n IH]; intros [|c text]; simpl; try lia.
  specialize (IH text). lia.
Qed.

Lemma remember_failure_last f (l : list MemoryRecord) :
  last (remember_failure f l) = Some f.
Proof.
  unfold remember_failure, GLOBAL_PREVIOUS_FAILURE_STEPS.
  destruct (Nat.ltb_spec 3 (length (l ++ [f]))) as [Hlt|_]; [|by rewrite last_snoc].
  destruct l as [|x l]; simpl in *; [lia|]. by rewrite last_snoc.
Qed.

(** Assigning to fields of one object leaves every reference valid. *)
Lemma deref_all_insert (st st' : Store W) refs all r x :
  deref_all st refs = Some all ->
  objects st' = <[r := x]> (objects st) ->
  exists all', deref_all st' refs = Some all'.
Proof.
  intros Hall Hobjs. apply mapM_is_Some.
  assert (is_Some (deref_all st refs)) as Hsome by (by eexists).
  apply mapM_is_Some in Hsome.
  eapply Forall_impl; [exact Hsome|]. intros i Hi. simpl in *.
  rewrite Hobjs. apply lookup_lt_is_Some. rewrite length_insert.
  by apply lookup_lt_is_Some.
Qed.

(** C6 (replan law).  Take a CODE step whose execution result perception
    judges as: original goal not achieved, local goal not achieved.  Then
    [execute_step] returns the step and has put, as newest entry of the
    failure memory, the record made of the step's description, "Tool
    failed" and the first 300 characters of the text of the execution
    result; [evaluate_step] then asks for exactly one mid-session decision
    with [step_failed = true], whose completed steps are the steps with
    status "completed" among all steps of all plan versions, records the
    decision as a new plan version, and the loop goes on with the new
    step. *)
Theorem replan_law (r : StepRef) (s : Step) (tc : ToolCode) (c : option string)
    (resp : ExecutorResponse) (w1 : W) (v : PlanVersion) (p : PerceptionSnapshot)
    (w2 : W) (all : list Step) (query : string) (st : Store W) :
  objects st !! r = Some s ->
  type s = "CODE" ->
  code s = Some tc ->
  tool_arguments tc !! "code" = Some c ->
  run_user_code self c (world st) = (resp, w1) ->
  last (plan_versions (session st)) = Some v ->
  perception_run self
    (step_result_input (Some (default "Tool Failed" (result resp))) st v) w1
    = (p, w2) ->
  original_goal_achieved p = false ->
  local_goal_achieved p = false ->
  deref_all st (session_steps st) = Some all ->
  let failure :=
    mkMemoryRecord None (description s) "Tool failed"
      (slice_to 300 (str_execution_result (Some (ResultResponse resp)))) in
  let new := length (objects st) in
  exists st1 all1 st2,
    execute_step self r st = Done (Some r) st1 /\
    objects st1 !! r = Some (executed_code resp p s) /\
    session_memory st1 = remember_failure failure (session_memory st) /\
    last (session_memory st1) = Some failure /\
    String.length (mem_solution_summary failure) <= 300 /\
    deref_all st1 (session_steps st1) = Some all1 /\
    let request :=
      MidSessionRequest (strategy self) query (length (plan_versions (session st)))
        (plan_text v) (filter (fun s => status s = "completed") all1)
        (executed_code resp p s) true in
    let d := fst (decision_run self request w2) in
    evaluate_step self r query st1 = Done (Some new) st2 /\
    events st2 =
      events st1 ++ [EvDecision request d; EvLiveUpdate (session st2) (objects st2)] /\
    plan_versions (session st2) =
      plan_versions (session st) ++ [mkPlanVersion (out_plan_text d) [new]] /\
    objects st2 !! new = Some (new_step d) /\
    session_memory st2 = session_memory st1 /\
    (forall fuel,
       while_step self (S fuel) query (Some r) st
         = while_step self fuel query (Some new) st2).
Proof.
  intros Hs Hty Hcode Hc Hrun Hlast Hper Ho Hl Hall failure new.
  pose proof (execute_step_code_eq self r s tc c resp w1 v p w2 st
                Hs Hty Hcode Hc Hrun Hlast Hper) as Hexec.
  simpl in Hexec. rewrite Hl in Hexec.
  match type of Hexec with _ = Done _ ?x => set (st1 := x) in * end.
  assert (objects st1 !! r = Some (executed_code resp p s)) as Hs1
    by (by eapply lookup_insert_object).
  destruct (deref_all_insert st st1 (session_steps st) all r
              (executed_code resp p s) Hall eq_refl) as [all1 Hall1].
  assert (perception (executed_code resp p s) = Some p) as Hp1 by done.
  pose proof (evaluate_step_cases self r _ p query st1 Hs1 Hp1) as Hreplan.
  rewrite Ho, Hl in Hreplan.
  destruct (decision_run self
              (mid_session_request self query v all1 (executed_code resp p s) true st1)
              (world st1)) as [d w3] eqn:Hd.
  assert (evaluate_step self r query st1 =
            Done (Some (length (objects st1)))
              (appended d (decided
                 (mid_session_request self query v all1 (executed_code resp p s)
                    true st1) d w3 st1))) as Heval.
  { rewrite Hreplan. by eapply replan_after_failure_eq. }
  assert (length (objects st1) = new) as Hnew
    by (subst st1 new; simpl; by rewrite length_insert).
  rewrite Hnew in Heval.
  exists st1, all1. eexists.
  split; [exact Hexec|]. split; [exact Hs1|]. split; [reflexivity|].
  split; [apply remember_failure_last|]. split; [apply slice_to_length|].
  split; [exact Hall1|].
  unfold mid_session_request in Hd. simpl in Hd. cbv zeta. rewrite Hd. simpl.
  split; [exact Heval|].
  split; [unfold events; simpl; by rewrite !map_app, <- !app_assoc|].
  split; [simpl; by rewrite length_insert|].
  split.
  { simpl. rewrite lookup_app_r by (rewrite length_insert; subst new; lia).
    rewrite length_insert. subst new. by rewrite Nat.sub_diag. }
  split; [reflexivity|].
  intros fuel. simpl. unfold bind at 1. rewrite Hexec.
  unfold bind at 1. by rewrite Heval.
Qed.

End Replan.

Lemma replan_law_witness :
  objects failing_store !! 0 = Some (new_step count_step) /\
  type (new_step count_step) = "CODE" /\
  local_goal_achieved not_achieved = false /\
  exists st1 st2,
    execute_step scripted 0 failing_store = Done (Some 0) st1 /\
    last (session_memory st1)
      = Some (mkMemoryRecord None "Count the words of the file" "Tool failed"
                "{'status': 'error', 'error': 'file not found'}") /\
    evaluate_step scripted 0 "How many words?" st1 = Done (Some 1) st2 /\
    objects st2 !! 1 = Some (new_step report_step).
Proof.
  split; [reflexivity|]. split; [reflexivity|]. split; [reflexivity|].
  destruct (replan_law scripted 0 (new_step count_step)
      (mkToolCode "raw_code_block" {[ "code" := out_code count_step ]})
      (out_code count_step) tool_error
      (mkScript [] [not_achieved] [report_step] [])
      (mkPlanVersion (out_plan_text count_step) [0])
      not_achieved
      (mkScript [] [] [report_step] [])
      [new_step count_step] "How many words?" failing_store
      eq_refl eq_refl eq_refl eq_refl eq_refl eq_refl eq_refl eq_refl eq_refl eq_refl)
    as (st1 & all1 & st2 & Hexec & _ & _ & Hlast & _ & Hall1 & Heval & _ & _ & Hnew & _).
  exists st1, st2. split; [exact Hexec|]. split; [exact Hlast|].
  split; [exact Heval|].
  assert (all1 = [executed_code tool_error not_achieved (new_step count_step)]) as ->.
  { pose proof Hexec as Hexec'. vm_compute in Hexec'.
    injection Hexec' as <-. vm_compute in Hall1. by injection Hall1 as <-. }
  exact Hnew.
Defined.

(** ** CONCLUDE and NOP steps *)

Section TerminalSteps.

Context {W : Type} (self : AgentLoop W).

(** Executing a CONCLUDE step, in a store where the step object and a
    latest plan version exist. *)
Lemma conclude_execution (r : StepRef) (s : Step) (v : PlanVersion)
    (query : string) (st : Store W) :
  objects st !! r = Some s ->
  type s = "CONCLUDE" ->
  last (plan_versions (session st)) = Some v ->
  let input :=
    mkPerceptionInput (conclusion s) (session_memory st) (Some (plan_text v))
                      "step_result" in
  let p := fst (perception_run self input (world st)) in
  exists st' s',
    execute_step self r st = Done None st' /\
    objects st' !! r = Some s' /\
    execution_result s' = ResultText <$> conclusion s /\
    status s' = "completed" /\
    perception s' = Some p /\
    state (session st') = completed_state p (conclusion s) /\
    (forall text, conclusion s = Some text ->
       execution_result s' = Some (ResultText text) /\
       raw_input input = Some text /\
       final_answer (state (session st')) = Some text) /\
    events st' =
      events st ++
      [EvExecuteStep r s; EvPerception input p;
       EvLiveUpdate (session st') (objects st')] /\
    (forall fuel, while_step self (S fuel) query (Some r) st = Done tt st').
Proof.
  intros Hs Hty Hlast input p.
  assert (step_result_input (conclusion s) st v = input) as Hinput
    by (unfold step_result_input; simpl; by rewrite app_nil_r).
  subst p. destruct (perception_run self input (world st)) as [p w1] eqn:Hper.
  rewrite <- Hinput in Hper.
  pose proof (execute_step_conclude_eq self r s v p w1 st Hs Hty Hlast Hper) as Hexec.
  rewrite Hinput in Hexec. simpl in Hexec. simpl.
  eexists _, (executed_conclude p s). split; [exact Hexec|].
  split; [simpl; by eapply lookup_insert_object|].
  split; [reflexivity|]. split; [reflexivity|]. split; [reflexivity|].
  split; [reflexivity|].
  split; [intros text Htext; simpl; by rewrite Htext|].
  split; [unfold events; simpl; by rewrite map_app|].
  intros fuel. simpl. unfold bind at 1. by rewrite Hexec.
Qed.

(** Executing a NOP step sets its status to
    "clarification_needed" and touches nothing else: the step's execution
    result and snapshot, the other objects, the session and the failure
    memory are as before; no collaborator is called; [execute_step] returns
    [None] and the loop ends at once. *)
Lemma nop_execution (r : StepRef) (s : Step) (query : string) (st : Store W) :
  objects st !! r = Some s ->
  type s = "NOP" ->
  exists st',
    execute_step self r st = Done None st' /\
    objects st' = <[r := with_status "clarification_needed" s]> (objects st) /\
    objects st' !! r = Some (with_status "clarification_needed" s) /\
    session st' = session st /\
    session_memory st' = session_memory st /\
    events st' =
      events st ++ [EvExecuteStep r s; EvLiveUpdate (session st') (objects st')] /\
    (forall fuel, while_step self (S fuel) query (Some r) st = Done tt st').
Proof.
  intros Hs Hty.
  pose proof (execute_step_nop_eq self r s st Hs Hty) as Hexec.
  eexists. split; [exact Hexec|]. split; [reflexivity|].
  split; [simpl; by eapply lookup_insert_object|].
  split; [reflexivity|]. split; [reflexivity|].
  split; [unfold events; simpl; by rewrite !map_app, <- app_assoc|].
  intros fuel. simpl. unfold bind at 1. by rewrite Hexec.
Qed.

End TerminalSteps.

(** ** Reading a result backwards *)

Section Inversion.

Context {W : Type} (self : AgentLoop W).

Implicit Types (st : Store W) (r : StepRef) (s : Step).

Lemma bind_done_inv {A B} (m : M W A) (f : A -> M W B) st b st' :
  bind m f st = Done b st' ->
  exists a st1, m st = Done a st1 /\ f a st1 = Done b st'.
Proof. unfold bind. destruct (m st) as [a st1| |]; [|done..]. by exists a, st1. Qed.

Lemma deref_inv r st s st' :
  deref r st = Done s st' -> st' = st /\ objects st !! r = Some s.
Proof. unfold deref. destruct (_ !! _); [|done]. by intros [= -> ->]. Qed.

Lemma latest_plan_text_inv st t st' :
  latest_plan_text st = Done t st' ->
  st' = st /\ exists v, last (plan_versions (session st)) = Some v /\ t = plan_text v.
Proof.
  unfold latest_plan_text. destruct (last _) as [v|]; [|done].
  intros [= <- <-]. split; [done|]. by exists v.
Qed.

Lemma call_decision_inv input st d st' :
  call_decision self input st = Done d st' ->
  exists w1, decision_run self input (world st) = (d, w1) /\
             st' = decided input d w1 st.
Proof.
  unfold call_decision. destruct (decision_run self input (world st)) as [d' w1].
  intros [= <- <-]. by exists w1.
Qed.

Lemma run_mid_session_decision_inv query r b st d st' :
  run_mid_session_decision self query r b st = Done d st' ->
  exists input w1,
    decision_run self input (world st) = (d, w1) /\ st' = decided input d w1 st.
Proof.
  unfold run_mid_session_decision. intros H.
  apply bind_done_inv in H as (a & st1 & [= <- <-] & H).
  apply bind_done_inv in H as (t & st1 & H1 & H).
  apply latest_plan_text_inv in H1 as (-> & _).
  apply bind_done_inv in H as (all & st1 & H1 & H).
  destruct (mapM _ _); [|done]. injection H1 as <- <-.
  apply bind_done_inv in H as (s & st1 & H1 & H).
  apply deref_inv in H1 as (-> & _).
  apply call_decision_inv in H as (w1 & Hd & ->). by eexists _, _.
Qed.

Lemma never_some_bind {A} (m : M W A) f :
  (forall x, never_some (f x)) -> never_some (bind m f).
Proof.
  intros Hf st a st' H. apply bind_done_inv in H as (x & st1 & _ & H).
  by eapply Hf.
Qed.

Lemma never_some_ret : never_some (W := W) (ret None).
Proof. by intros st a st' [= <- _]. Qed.

(** When [evaluate_step] hands back a step, it has asked for one decision
    and appended the plan version of its output. *)
Lemma evaluate_step_some r query n st st2 :
  evaluate_step self r query st = Done (Some n) st2 ->
  exists input d w1,
    decision_run self input (world st) = (d, w1) /\
    st2 = appended d (decided input d w1 st) /\
    n = length (objects st).
Proof.
  unfold evaluate_step. intros H.
  apply bind_done_inv in H as (s & st1 & H1 & H).
  apply deref_inv in H1 as (-> & Hs).
  apply bind_done_inv in H as (p' & st1 & H1 & H).
  destruct (perception s) as [p|]; [|done]. injection H1 as <- <-.
  destruct (original_goal_achieved p).
  { exfalso. revert H.
    assert (never_some (W := W)
              (mark_complete p None ;;; live_update_session ;;; ret None))
      as Hnever.
    { apply never_some_bind. intros _. apply never_some_bind. intros _.
      apply never_some_ret. }
    intros H. by apply Hnever in H. }
  assert (forall b d st1,
            run_mid_session_decision self query r b st = Done d st1 ->
            append_new_plan_version d st1 = Done (Some n) st2 ->
            exists input d w1,
              decision_run self input (world st) = (d, w1) /\
              st2 = appended d (decided input d w1 st) /\
              n = length (objects st)) as Hboth.
  { intros b d st1 Hmid Happ.
    apply run_mid_session_decision_inv in Hmid as (input & w1 & Hd & ->).
    rewrite append_new_plan_version_eq in Happ. injection Happ as <- <-.
    by exists input, d, w1. }
  destruct (local_goal_achieved p).
  - unfold get_next_step in H.
    apply bind_done_inv in H as (t & st1 & H1 & H).
    apply latest_plan_text_inv in H1 as (-> & _).
    apply bind_done_inv in H as (s' & st1 & H1 & H).
    apply deref_inv in H1 as (-> & _).
    destruct (_ <? _)%Z; [|done].
    apply bind_done_inv in H as (d & st1 & H1 & H). by eapply Hboth.
  - unfold replan_after_failure in H.
    apply bind_done_inv in H as (d & st1 & H1 & H). by eapply Hboth.
Qed.

End Inversion.

Section ExecuteInversion.

Context {W : Type} (self : AgentLoop W).

Implicit Types (st : Store W) (r : StepRef) (s : Step).

Lemma execute_step_no_code r s st :
  objects st !! r = Some s -> type s = "CODE" -> code s = None ->
  exists st', execute_step self r st = Raised AttributeError st'.
Proof.
  intros Hs Hty Hcode. unfold execute_step, bind, deref. rewrite Hs. simpl.
  rewrite Hty, Hcode. simpl. by eexists.
Qed.

Lemma execute_step_no_argument r s tc st :
  objects st !! r = Some s -> type s = "CODE" -> code s = Some tc ->
  tool_arguments tc !! "code" = None ->
  exists st', execute_step self r st = Raised KeyError st'.
Proof.
  intros Hs Hty Hcode Hc. unfold execute_step, bind, deref. rewrite Hs. simpl.
  rewrite Hty, Hcode. simpl. rewrite Hc. simpl. by eexists.
Qed.

Lemma execute_step_no_plan r s tc c st :
  objects st !! r = Some s -> type s = "CODE" -> code s = Some tc ->
  tool_arguments tc !! "code" = Some c ->
  last (plan_versions (session st)) = None ->
  exists st', execute_step self r st = Raised IndexError st'.
Proof.
  intros Hs Hty Hcode Hc Hlast. unfold execute_step, bind, deref. rewrite Hs. simpl.
  rewrite Hty, Hcode. simpl. rewrite Hc. simpl.
  unfold call_executor, bind. simpl.
  destruct (run_user_code self c (world st)) as [resp w1]. simpl.
  unfold update_step. simpl. rewrite Hs.
  simpl. rewrite (lookup_insert_object _ _ _ _ Hs). simpl.
  unfold latest_plan_text. simpl. rewrite Hlast. by eexists.
Qed.

Lemma execute_step_not_code r s st :
  objects st !! r = Some s -> type s <> "CODE" ->
  forall a st', execute_step self r st = Done a st' -> a = None.
Proof.
  intros Hs Hty a st' H. unfold execute_step in H.
  apply bind_done_inv in H as (s' & st1 & H1 & H).
  apply deref_inv in H1 as (-> & Hs'). rewrite Hs in Hs'. injection Hs' as <-.
  apply bind_done_inv in H as (u & st1 & _ & H).
  apply String.eqb_neq in Hty. rewrite Hty in H. revert st1 a st' H.
  match goal with
  | |- forall st1 a st', ?m st1 = Done a st' -> a = None => change (never_some m)
  end.
  destruct (String.eqb (type s) "CONCLUDE"); [|destruct (String.eqb (type s) "NOP")];
    repeat (first [apply never_some_ret | apply never_some_bind; intros ?]).
Qed.

(** When [execute_step] hands back a step, it is the CODE step it was
    given, executed and judged. *)
Lemma execute_step_some r x st st1 :
  execute_step self r st = Done (Some x) st1 ->
  exists s tc c resp w1 v p w2,
    objects st !! r = Some s /\
    type s = "CODE" /\
    code s = Some tc /\
    tool_arguments tc !! "code" = Some c /\
    run_user_code self c (world st) = (resp, w1) /\
    last (plan_versions (session st)) = Some v /\
    perception_run self
      (step_result_input (Some (default "Tool Failed" (result resp))) st v) w1
      = (p, w2).
Proof.
  intros H.
  destruct (objects st !! r) as [s|] eqn:Hs.
  2: { unfold execute_step, bind, deref in H. by rewrite Hs in H. }
  destruct (String.eqb_spec (type s) "CODE") as [Hty|Hty].
  2: { by apply (execute_step_not_code r s st Hs Hty) in H. }
  destruct (code s) as [tc|] eqn:Hcode.
  2: { destruct (execute_step_no_code r s st Hs Hty Hcode) as [st' E]. congruence. }
  destruct (tool_arguments tc !! "code") as [c|] eqn:Hc.
  2: { destruct (execute_step_no_argument r s tc st Hs Hty Hcode Hc) as [st' E].
       congruence. }
  destruct (last (plan_versions (session st))) as [v|] eqn:Hlast.
  2: { destruct (execute_step_no_plan r s tc c st Hs Hty Hcode Hc Hlast) as [st' E].
       congruence. }
  destruct (run_user_code self c (world st)) as [resp w1] eqn:Hrun.
  destruct (perception_run self
    (step_result_input (Some (default "Tool Failed" (result resp))) st v) w1)
    as [p w2] eqn:Hper.
  by exists s, tc, c, resp, w1, v, p, w2.
Qed.

(** Past its entry event, [execute_step] keeps every frame that allows the
    events other than step entries. *)
Lemma execute_step_after_entry (R : Store W -> Store W -> Prop)
    (Pev : Event -> Prop) r s st :
  Frame R Pev ->
  (forall e, is_execute_event e = false -> Pev e) ->
  objects st !! r = Some s ->
  R (with_trace (trace st ++ [mkObservation (EvExecuteStep r s) (session_memory st)]) st)
    (final_store (execute_step self r st)).
Proof.
  intros HF Hother Hs. unfold execute_step at 1.
  unfold bind at 1. unfold deref at 1. rewrite Hs.
  unfold bind at 1. unfold emit at 1.
  match goal with
  | |- R ?st0 (final_store (?m ?st0)) => generalize st0; change (respects R m)
  end.
  pose proof (respects_live_update_session R Pev HF Hother).
  pose proof (respects_run_perception self R Pev HF Hother).
  pose proof (respects_call_executor self R Pev HF Hother).
  frame_rules.
Qed.

Lemma final_store_then_session (m : M W unit) st :
  final_store ((m ;;; get_session) st) = final_store (m st).
Proof. unfold bind. by destruct (m st). Qed.

End ExecuteInversion.

(** ** Nothing runs after a terminal step *)

Lemma not_entry_avoids T e : not_entry e -> entry_avoids T e.
Proof. by destruct e. Qed.

Lemma avoided_last_executed T l : Forall (entry_avoids T) l -> last_executed T l.
Proof.
  intros Hl before r s after -> Hs.
  apply Forall_app in Hl as [_ Hl]. apply Forall_cons in Hl as [Hl _]. by destruct Hl.
Qed.

Lemma last_executed_entry T l e after :
  Forall (entry_avoids T) l -> Forall not_entry after ->
  last_executed T (l ++ e :: after).
Proof.
  intros Hl Hafter before r s after' Heq Hs.
  apply app_eq_app in Heq as [m [[-> Heq]|[-> Heq]]].
  - destruct m as [|x m]; simpl in Heq.
    + by injection Heq as _ <-.
    + injection Heq as <- _.
      apply Forall_app in Hl as [_ Hl]. apply Forall_cons in Hl as [Hl _].
      by destruct Hl.
  - destruct m as [|x m]; simpl in Heq.
    + by injection Heq as _ ->.
    + injection Heq as _ ->.
      apply Forall_app in Hafter as [_ Hafter]. by apply Forall_cons in Hafter as [_ ?].
Qed.

Section TerminalLaw.

Context {W : Type} (self : AgentLoop W).

Implicit Types (st : Store W) (r : StepRef) (s : Step).

Lemma events_extends_by Pev (st st' : Store W) :
  extends_by Pev st st' ->
  exists l, events st' = events st ++ l /\ Forall Pev l.
Proof.
  intros (l & Hl & Hall). exists (map obs_event l). split.
  - unfold events. by rewrite Hl, map_app.
  - by apply Forall_map.
Qed.

(** The trace of [execute_step]: the entry, then no other entry. *)
Lemma execute_step_events r s st :
  objects st !! r = Some s ->
  exists l,
    events (final_store (execute_step self r st))
      = events st ++ EvExecuteStep r s :: l /\
    Forall not_entry l.
Proof.
  intros Hs.
  destruct (events_extends_by not_entry _ _
    (execute_step_after_entry self (extends_by not_entry) not_entry r s st
       (extends_by_frame not_entry) (fun e H => H) Hs)) as (l & Hl & Hall).
  exists l. split; [|done]. rewrite Hl. unfold events. simpl.
  by rewrite map_app, <- app_assoc.
Qed.

Lemma evaluate_step_events r query st :
  exists l,
    events (final_store (evaluate_step self r query st)) = events st ++ l /\
    Forall not_entry l.
Proof.
  apply events_extends_by.
  apply (respects_evaluate_step self (extends_by not_entry) not_entry
           (extends_by_frame not_entry) (fun e H => H)).
Qed.

(** The loop, started on a trace without any entry of a step in [T], ends
    on a trace in which nothing follows the entry of a step in [T], as long
    as [T] has no CODE step. *)
Lemma while_step_last_executed (T : Step -> Prop) fuel query step st :
  (forall s, T s -> type s <> "CODE") ->
  Forall (entry_avoids T) (events st) ->
  last_executed T (events (final_store (while_step self fuel query step st))).
Proof.
  intros HT. revert step st.
  induction fuel as [|fuel IH]; intros [r|] st Hst; simpl;
    try by apply avoided_last_executed.
  unfold bind at 1.
  destruct (objects st !! r) as [s|] eqn:Hs.
  2: { unfold execute_step, bind, deref. rewrite Hs. by apply avoided_last_executed. }
  destruct (execute_step_events r s st Hs) as (l & Hl & Hall).
  destruct (execute_step self r st) as [[x|] st1|e st1|st1] eqn:Hexec;
    simpl in Hl; try (unfold ret; simpl; rewrite Hl; by apply last_executed_entry).
  apply execute_step_some in Hexec as Hcode.
  destruct Hcode as (s' & tc & c & resp & w1 & v & p & w2 & Hs' & Hty & _).
  rewrite Hs in Hs'. injection Hs' as <-.
  assert (Forall (entry_avoids T) (events st1)) as Hst1.
  { rewrite Hl. apply Forall_app. split; [done|]. apply Forall_cons. split.
    - intros Hs'. by apply HT in Hs'.
    - eapply Forall_impl; [exact Hall|]. apply not_entry_avoids. }
  unfold bind at 1.
  destruct (evaluate_step_events x query st1) as (l2 & Hl2 & Hall2).
  assert (Forall (entry_avoids T) (events (final_store (evaluate_step self x query st1))))
    as Hst2.
  { rewrite Hl2. apply Forall_app. split; [done|].
    eapply Forall_impl; [exact Hall2|]. apply not_entry_avoids. }
  destruct (evaluate_step self x query st1) as [next st2|e st2|st2]; simpl in *;
    try by apply avoided_last_executed.
  by apply IH.
Qed.

(** C9 (terminal law).  In the trace of every run, however the run ends,
    no step is executed after a CONCLUDE or NOP step has been: whatever
    follows the entry of such a step in [execute_step] is not the entry of
    a step. *)
Theorem terminal_law (fuel : nat) (query : string) (w : W)
    (before : list Event) (r : StepRef) (s : Step) (after : list Event) :
  events (final_store (run self fuel query w))
    = before ++ EvExecuteStep r s :: after ->
  terminal_type s ->
  Forall (fun e => is_execute_event e = false) after.
Proof.
  assert (last_executed terminal_type (events (final_store (run self fuel query w))))
    as Hlast; [|intros Heq Hs; by eapply Hlast].
  destruct (original_goal_achieved (opening_perception self query w)) eqn:Hopen.
  - rewrite run_fast by done. apply avoided_last_executed.
    unfold events. simpl. by repeat constructor.
  - rewrite run_planned by done. unfold bind at 1. simpl.
    rewrite final_store_then_session. apply while_step_last_executed.
    + intros s' [Hs'|Hs'] Hcode; congruence.
    + unfold events. simpl. by repeat constructor.
Qed.

End TerminalLaw.

Lemma terminal_law_witness :
  events (final_store (run scripted 1 "Which city?" clarify_world))
    = [EvMemorySearch "Which city?" [];
       EvPerception (mkPerceptionInput (Some "Which city?") [] None "user_query")
                    not_achieved;
       EvDecision (InitialRequest "exploratory" "Which city?" not_achieved) clarify;
       EvLiveUpdate
         (mkAgentSession "session-1" "Which city?" (Some not_achieved)
            [mkPlanVersion (out_plan_text clarify) [0]] initial_state)
         [new_step clarify]]
      ++ EvExecuteStep 0 (new_step clarify)
      :: [EvLiveUpdate
            (mkAgentSession "session-1" "Which city?" (Some not_achieved)
               [mkPlanVersion (out_plan_text clarify) [0]] initial_state)
            [with_status "clarification_needed" (new_step clarify)]] /\
  terminal_type (new_step clarify) /\
  Forall (fun e => is_execute_event e = false)
    [EvLiveUpdate
       (mkAgentSession "session-1" "Which city?" (Some not_achieved)
          [mkPlanVersion (out_plan_text clarify) [0]] initial_state)
       [with_status "clarification_needed" (new_step clarify)]].
Proof.
  assert (events (final_store (run scripted 1 "Which city?" clarify_world))
    = [EvMemorySearch "Which city?" [];
       EvPerception (mkPerceptionInput (Some "Which city?") [] None "user_query")
                    not_achieved;
       EvDecision (InitialRequest "exploratory" "Which city?" not_achieved) clarify;
       EvLiveUpdate
         (mkAgentSession "session-1" "Which city?" (Some not_achieved)
            [mkPlanVersion (out_plan_text clarify) [0]] initial_state)
         [new_step clarify]]
      ++ EvExecuteStep 0 (new_step clarify)
      :: [EvLiveUpdate
            (mkAgentSession "session-1" "Which city?" (Some not_achieved)
               [mkPlanVersion (out_plan_text clarify) [0]] initial_state)
            [with_status "clarification_needed" (new_step clarify)]]) as Htrace
    by (vm_compute; reflexivity).
  split; [exact Htrace|]. split; [right; reflexivity|].
  exact (terminal_law scripted 1 "Which city?" clarify_world _ _ _ _ Htrace
           (or_intror eq_refl)).
Defined.

(** ** Steps are executed at loop heads *)

Section Reaching.

Context {W : Type} (self : AgentLoop W).

Implicit Types (st : Store W) (r : StepRef) (s : Step).

Lemma while_step_none fuel query st :
  while_step self fuel query None st = Done tt st.
Proof. by destruct fuel. Qed.

(** A step entry in the trace of the loop is an old one, or the loop has
    come to test its condition on that step, in a store where [loop_head]
    holds, and what the loop computes is what it computes from there. *)
Lemma while_step_reaches fuel query step st r s :
  loop_head st step ->
  EvExecuteStep r s ∈ events (final_store (while_step self fuel query step st)) ->
  EvExecuteStep r s ∈ events st \/
  exists fuel' st_r,
    loop_head st_r (Some r) /\
    objects st_r !! r = Some s /\
    while_step self fuel query step st
      = while_step self (S fuel') query (Some r) st_r.
Proof.
  revert step st.
  induction fuel as [|fuel IH]; intros [r0|] st Hhead Hin; try (by left).
  pose proof Hhead as (Hstate & Hstep).
  destruct (Hstep r0 eq_refl) as (d0 & t0 & Hs0 & Hlast0).
  destruct (execute_step_events self r0 _ st Hs0) as (l & Hl & Hall).
  assert (forall st1,
            events st1 = events st ++ EvExecuteStep r0 (new_step d0) :: l ->
            EvExecuteStep r s ∈ events st1 ->
            EvExecuteStep r s ∈ events st \/ (r = r0 /\ s = new_step d0)) as Hentry.
  { intros st1 -> Hin1. apply elem_of_app in Hin1 as [Hin1|Hin1]; [by left|].
    apply elem_of_cons in Hin1 as [[= -> ->]|Hin1]; [by right|].
    rewrite Forall_forall in Hall. by apply Hall in Hin1. }
  assert (r = r0 /\ s = new_step d0 ->
          exists fuel' st_r,
            loop_head st_r (Some r) /\ objects st_r !! r = Some s /\
            while_step self (S fuel) query (Some r0) st
              = while_step self (S fuel') query (Some r) st_r) as Hhere.
  { intros [-> ->]. by exists fuel, st. }
  simpl in Hin. unfold bind at 1 in Hin.
  destruct (execute_step self r0 st) as [[x|] st1|e st1|st1] eqn:Hexec;
    simpl in Hl, Hin;
    try (destruct (Hentry st1 Hl Hin) as [?|?]; [by left | right; by apply Hhere]).
  apply execute_step_some in Hexec as Hcode.
  destruct Hcode as (s' & tc & c & resp & w1 & v & p & w2
                     & Hs' & Hcty & Hcode & Hc & Hrun & Hlast & Hper).
  rewrite Hs0 in Hs'. injection Hs' as <-.
  rewrite (execute_step_code_eq self r0 _ tc c resp w1 v p w2 st) in Hexec by done.
  injection Hexec as <- Hst1.
  assert (state (session st1) = initial_state) as Hstate1 by (by rewrite <- Hst1).
  unfold bind at 1 in Hin.
  destruct (evaluate_step_events self r0 query st1) as (l2 & Hl2 & Hall2).
  assert (forall st2,
            events st2 = events st1 ++ l2 ->
            EvExecuteStep r s ∈ events st2 ->
            EvExecuteStep r s ∈ events st \/ (r = r0 /\ s = new_step d0)) as Hlater.
  { intros st2 -> Hin2. apply elem_of_app in Hin2 as [Hin2|Hin2]; [by eapply Hentry|].
    rewrite Forall_forall in Hall2. by apply Hall2 in Hin2. }
  destruct (evaluate_step self r0 query st1) as [[n|] st2|e st2|st2] eqn:Heval;
    simpl in Hl2, Hin;
    try (destruct (Hlater st2 Hl2 Hin) as [?|?]; [by left | right; by apply Hhere]).
  2: { rewrite while_step_none in Hin.
       destruct (Hlater st2 Hl2 Hin) as [?|?]; [by left | right; by apply Hhere]. }
  assert (loop_head st2 (Some n)) as Hhead2.
  { apply evaluate_step_some in Heval as (input & d & w3 & Hd & -> & ->).
    split; [done|]. intros r' [= <-]. exists d, (out_plan_text d). split.
    - simpl. by rewrite lookup_app_r, Nat.sub_diag by done.
    - simpl. by rewrite last_snoc. }
  destruct (IH (Some n) st2 Hhead2 Hin) as [Hold|(fuel' & st_r & Hhead_r & Hs_r & Heq)].
  - destruct (Hlater st2 Hl2 Hold) as [?|?]; [by left | right; by apply Hhere].
  - right. exists fuel', st_r. split; [done|]. split; [done|].
    simpl. unfold bind at 1.
    rewrite (execute_step_code_eq self r0 _ tc c resp w1 v p w2 st) by done.
    rewrite Hst1. unfold bind at 1. by rewrite Heval.
Qed.

(** Every step entry in the trace of [run] was made from a loop head, and
    what [run] returns is what the loop returns from there. *)
Lemma run_reaches fuel query w r s :
  EvExecuteStep r s ∈ events (final_store (run self fuel query w)) ->
  exists fuel' st_r,
    loop_head st_r (Some r) /\
    objects st_r !! r = Some s /\
    run self fuel query w
      = (while_step self (S fuel') query (Some r) ;;; get_session) st_r.
Proof.
  intros Hin.
  destruct (original_goal_achieved (opening_perception self query w)) eqn:Hopen.
  { rewrite run_fast in Hin by done. unfold events in Hin. simpl in Hin.
    exfalso.
    repeat (apply elem_of_cons in Hin as [Hin|Hin]; [discriminate Hin|]).
    by apply elem_of_nil in Hin. }
  rewrite run_planned in Hin |- * by done.
  unfold bind at 1 in Hin. unfold bind at 1. simpl in Hin. simpl.
  rewrite final_store_then_session in Hin.
  apply while_step_reaches in Hin as [Hin|(fuel' & st_r & Hhead & Hs & Heq)].
  - exfalso. unfold events in Hin. simpl in Hin.
    repeat (apply elem_of_cons in Hin as [Hin|Hin]; [discriminate Hin|]).
    by apply elem_of_nil in Hin.
  - exists fuel', st_r. split; [done|]. split; [done|].
    unfold bind. by rewrite Heq.
  - split; [done|]. intros r' [= <-]. simpl. by eexists _, _.
Qed.

End Reaching.

Section TerminalSemantics.

Context {W : Type} (self : AgentLoop W).

(** C7 (CONCLUDE).  Executing a CONCLUDE step stores the conclusion as the
    step's execution result and sets its status to "completed"; calls
    perception once, on the conclusion, with the failure memory and the
    latest plan text; attaches the snapshot to the step; marks the session
    complete with that snapshot and the conclusion as final answer; and
    returns [None], so that the loop ends at once: between the entry of
    [execute_step] and the return there is that perception call and one
    live update, and no decision call.  And in every run that executes a
    CONCLUDE step, [run] returns the session right after these three
    events, with the step and the session state as said. *)
Theorem conclude_semantics :
  (forall r s v query (st : Store W),
     objects st !! r = Some s ->
     type s = "CONCLUDE" ->
     last (plan_versions (session st)) = Some v ->
     let input :=
       mkPerceptionInput (conclusion s) (session_memory st) (Some (plan_text v))
                         "step_result" in
     let p := fst (perception_run self input (world st)) in
     exists st' s',
       execute_step self r st = Done None st' /\
       objects st' !! r = Some s' /\
       execution_result s' = ResultText <$> conclusion s /\
       status s' = "completed" /\
       perception s' = Some p /\
       state (session st') = completed_state p (conclusion s) /\
       (forall text, conclusion s = Some text ->
          execution_result s' = Some (ResultText text) /\
          raw_input input = Some text /\
          final_answer (state (session st')) = Some text) /\
       events st' =
         events st ++
         [EvExecuteStep r s; EvPerception input p;
          EvLiveUpdate (session st') (objects st')] /\
       (forall fuel, while_step self (S fuel) query (Some r) st = Done tt st')) /\
  (forall fuel query w r s,
     EvExecuteStep r s ∈ events (final_store (run self fuel query w)) ->
     type s = "CONCLUDE" ->
     exists st s' before input p,
       run self fuel query w = Done (session st) st /\
       events st =
         before ++
         [EvExecuteStep r s; EvPerception input p;
          EvLiveUpdate (session st) (objects st)] /\
       raw_input input = conclusion s /\
       objects st !! r = Some s' /\
       execution_result s' = ResultText <$> conclusion s /\
       status s' = "completed" /\
       perception s' = Some p /\
       state (session st) = completed_state p (conclusion s) /\
       (forall text, conclusion s = Some text ->
          final_answer (state (session st)) = Some text)).
Proof.
  split; [intros; by apply conclude_execution|].
  intros fuel query w r s Hin Hty.
  apply run_reaches in Hin as (fuel' & st_r & (_ & Hstep) & Hs & Hrun).
  destruct (Hstep r eq_refl) as (d & t & _ & Hlast).
  destruct (conclude_execution self r s _ query st_r Hs Hty Hlast)
    as (st & s' & _ & Hs' & Hres & Hstatus & Hper & Hstate & Htext & Hev & Hloop).
  exists st, s', (events st_r). eexists _, _.
  split; [rewrite Hrun; unfold bind; by rewrite Hloop|].
  split; [exact Hev|]. split; [reflexivity|]. split; [exact Hs'|].
  split; [exact Hres|]. split; [exact Hstatus|]. split; [exact Hper|].
  split; [exact Hstate|]. intros text Hc. by apply Htext.
Qed.

(** C8 (NOP).  Executing a NOP step sets its status to
    "clarification_needed" and nothing else: no execution result and no
    snapshot are attached, no collaborator is called, and the loop ends at
    once.  And in every run that executes a NOP step, [run] returns the
    session; the step is the one of the latest plan version, its object has
    status "clarification_needed", no execution result and no snapshot; and
    the session state was never written, so that it holds no final
    answer. *)
Theorem nop_semantics :
  (forall r s query (st : Store W),
     objects st !! r = Some s ->
     type s = "NOP" ->
     exists st',
       execute_step self r st = Done None st' /\
       objects st' = <[r := with_status "clarification_needed" s]> (objects st) /\
       (forall s', objects st' !! r = Some s' ->
          status s' = "clarification_needed" /\
          execution_result s' = execution_result s /\
          perception s' = perception s) /\
       session st' = session st /\
       events st' =
         events st ++ [EvExecuteStep r s; EvLiveUpdate (session st') (objects st')] /\
       (forall fuel, while_step self (S fuel) query (Some r) st = Done tt st')) /\
  (forall fuel query w r s,
     EvExecuteStep r s ∈ events (final_store (run self fuel query w)) ->
     type s = "NOP" ->
     exists st s',
       run self fuel query w = Done (session st) st /\
       (exists t, last (plan_versions (session st)) = Some (mkPlanVersion t [r])) /\
       objects st !! r = Some s' /\
       status s' = "clarification_needed" /\
       execution_result s' = None /\
       perception s' = None /\
       state (session st) = initial_state /\
       final_answer (state (session st)) = None).
Proof.
  split.
  - intros r s query st Hs Hty.
    destruct (nop_execution self r s query st Hs Hty)
      as (st' & Hexec & Hobjs & Hs' & Hsession & _ & Hev & Hloop).
    exists st'. split; [done|]. split; [done|]. split; [|done].
    intros s'. rewrite Hs'. by intros [= <-].
  - intros fuel query w r s Hin Hty.
    apply run_reaches in Hin as (fuel' & st_r & (Hstate & Hstep) & Hs & Hrun).
    destruct (Hstep r eq_refl) as (d & t & Hd & Hlast).
    rewrite Hs in Hd. injection Hd as ->.
    destruct (nop_execution self r _ query st_r Hs Hty)
      as (st & _ & _ & Hs' & Hsession & _ & _ & Hloop).
    exists st, (with_status "clarification_needed" (new_step d)).
    split; [rewrite Hrun; unfold bind; by rewrite Hloop|].
    rewrite Hsession. split; [by exists t|]. split; [exact Hs'|].
    split; [done|]. split; [done|]. split; [done|]. split; [done|].
    by rewrite Hstate.
Qed.

End TerminalSemantics.

Lemma conclude_semantics_witness :
  objects concluding_store !! 1 = Some (new_step report_step) /\
  type (new_step report_step) = "CONCLUDE" /\
  exists st',
    execute_step scripted 1 concluding_store = Done None st' /\
    final_answer (state (session st')) = Some "1200 words" /\
    while_step scripted 1 "How many words?" (Some 1) concluding_store = Done tt st'.
Proof.
  split; [reflexivity|]. split; [reflexivity|].
  destruct (proj1 (conclude_semantics scripted) 1 (new_step report_step)
      (mkPlanVersion (out_plan_text report_step) [1])
      "How many words?" concluding_store eq_refl eq_refl eq_refl)
    as (st' & s' & Hexec & _ & _ & _ & _ & _ & Htext & _ & Hloop).
  exists st'. split; [exact Hexec|].
  split; [exact (proj2 (proj2 (Htext "1200 words" eq_refl))) | exact (Hloop 0)].
Defined.

Lemma clarify_trace :
  events (final_store (run scripted 1 "Which city?" clarify_world))
    = [EvMemorySearch "Which city?" [];
       EvPerception (mkPerceptionInput (Some "Which city?") [] None "user_query")
                    not_achieved;
       EvDecision (InitialRequest "exploratory" "Which city?" not_achieved) clarify;
       EvLiveUpdate
         (mkAgentSession "session-1" "Which city?" (Some not_achieved)
            [mkPlanVersion (out_plan_text clarify) [0]] initial_state)
         [new_step clarify];
       EvExecuteStep 0 (new_step clarify);
       EvLiveUpdate
         (mkAgentSession "session-1" "Which city?" (Some not_achieved)
            [mkPlanVersion (out_plan_text clarify) [0]] initial_state)
         [with_status "clarification_needed" (new_step clarify)]].
Proof. vm_compute. reflexivity. Qed.

Lemma nop_semantics_witness :
  EvExecuteStep 0 (new_step clarify)
    ∈ events (final_store (run scripted 1 "Which city?" clarify_world)) /\
  type (new_step clarify) = "NOP" /\
  exists st s',
    run scripted 1 "Which city?" clarify_world = Done (session st) st /\
    objects st !! 0 = Some s' /\
    status s' = "clarification_needed" /\
    final_answer (state (session st)) = None.
Proof.
  assert (EvExecuteStep 0 (new_step clarify)
            ∈ events (final_store (run scripted 1 "Which city?" clarify_world)))
    as Hin by (rewrite clarify_trace; do 4 apply list_elem_of_further;
               apply list_elem_of_here).
  split; [exact Hin|]. split; [reflexivity|].
  destruct (proj2 (nop_semantics scripted) 1 "Which city?" clarify_world 0
              (new_step clarify) Hin eq_refl)
    as (st & s' & Hrun & _ & Hs' & Hstatus & _ & _ & _ & Hanswer).
  exists st, s'. split; [exact Hrun|]. split; [exact Hs'|].
  split; [exact Hstatus|exact Hanswer].
Defined.

(** * Beyond the laws: the loop as a whole *)

(** ** One iteration, exactly *)

Section IterationLaws.

Context {W : Type} (self : AgentLoop W).

Implicit Types (st : Store W) (r : StepRef) (s : Step).

Lemma deref_all_valid st refs :
  Forall (fun r => r < length (objects st)) refs ->
  exists all, deref_all st refs = Some all.
Proof.
  intros H. apply mapM_is_Some. eapply Forall_impl; [exact H|].
  intros r Hr. by apply lookup_lt_is_Some.
Qed.

Lemma new_step_code d :
  out_type d = "CODE" ->
  code (new_step d) = Some (mkToolCode "raw_code_block" {[ "code" := out_code d ]}).
Proof. intros H. unfold new_step. simpl. by rewrite H. Qed.

Lemma while_step_continue fuel query r x st st1 next st2 :
  execute_step self r st = Done (Some x) st1 ->
  evaluate_step self x query st1 = Done next st2 ->
  while_step self (S fuel) query (Some r) st = while_step self fuel query next st2.
Proof.
  intros Hexec Heval. simpl. unfold bind at 1. rewrite Hexec.
  unfold bind at 1. by rewrite Heval.
Qed.

Lemma while_step_break fuel query r st st1 :
  execute_step self r st = Done None st1 ->
  while_step self (S fuel) query (Some r) st = while_step self fuel query None st1.
Proof.
  intros Hexec. simpl. unfold bind at 1. rewrite Hexec.
  by rewrite while_step_none.
Qed.

(** [evaluate_step] on an executed step never raises in a store whose
    references are valid and that has a plan version. *)
Lemma evaluate_step_evaluates query r s p v st :
  objects st !! r = Some s ->
  perception s = Some p ->
  last (plan_versions (session st)) = Some v ->
  Forall (fun r => r < length (objects st)) (session_steps st) ->
  exists next st',
    evaluates self query st r s p next st' /\
    evaluate_step self r query st = Done next st'.
Proof.
  intros Hs Hp Hlast Hvalid.
  rewrite (evaluate_step_cases self r s p query st Hs Hp).
  destruct (deref_all_valid st _ Hvalid) as [all Hall].
  destruct (original_goal_achieved p) eqn:Ho.
  { exists None, (completed p st). split; [by constructor|reflexivity]. }
  destruct (local_goal_achieved p) eqn:Hl.
  - destruct (Z_lt_dec (index s + 1) (Z.of_nat (length (plan_text v)))) as [Hlt|Hge].
    + destruct (decision_run self (mid_session_request self query v all s false st)
                  (world st)) as [d w] eqn:Hd.
      eexists _, _. split; [by eapply evaluates_advance|].
      by eapply get_next_step_eq.
    + exists None, st. split; [by eapply evaluates_exhausted|].
      by eapply get_next_step_exhausted.
  - destruct (decision_run self (mid_session_request self query v all s true st)
                (world st)) as [d w] eqn:Hd.
    eexists _, _. split; [by eapply evaluates_replan|].
    by eapply replan_after_failure_eq.
Qed.

Lemma session_steps_appended d (st : Store W) :
  session_steps (appended d st) = session_steps st ++ [length (objects st)].
Proof.
  unfold session_steps. simpl. rewrite map_app, concat_app. simpl.
  by rewrite ?app_nil_r.
Qed.

Lemma evaluates_well_formed query r s p next st st' :
  evaluates self query st r s p next st' ->
  Forall (fun r => r < length (objects st)) (session_steps st) ->
  plan_versions (session st) <> [] ->
  well_formed st' next.
Proof.
  assert (forall input d w,
            Forall (fun r => r < length (objects st)) (session_steps st) ->
            well_formed (appended d (decided input d w st))
                        (Some (length (objects st)))) as Happ.
  { intros input d w Hvalid. split; [|split].
    - rewrite session_steps_appended. simpl. rewrite length_app. simpl.
      apply Forall_app. split.
      + eapply Forall_impl; [exact Hvalid|]. simpl. lia.
      + apply Forall_singleton. lia.
    - simpl. by destruct (plan_versions (session st)).
    - intros r' [= <-]. exists d, (out_plan_text d). split.
      + simpl. by rewrite lookup_app_r, Nat.sub_diag by done.
      + simpl. by rewrite last_snoc. }
  intros [Ho|v all d w Ho Hl Hlast Hall Hlt Hd|v Ho Hl Hlast Hge|v all d w Ho Hl Hlast Hall Hd]
    Hvalid Hne.
  - split; [done|]. split; [done|]. by intros r' [=].
  - by apply Happ.
  - split; [done|]. split; [done|]. by intros r' [=].
  - by apply Happ.
Qed.

(** From a well-formed loop head, one turn of the loop never raises: it is
    one of the ways of [iterates], it leaves a well-formed store, and the
    loop goes on from there. *)
Lemma loop_iteration query r st :
  well_formed st (Some r) ->
  exists next st',
    iterates self query st r next st' /\
    well_formed st' next /\
    forall fuel,
      while_step self (S fuel) query (Some r) st
        = while_step self fuel query next st'.
Proof.
  intros (Hvalid & Hne & Hstep).
  destruct (Hstep r eq_refl) as (d & t & Hs & Hlast).
  assert (forall objs (st' : Store W),
            length objs = length (objects st) ->
            objects st' = objs ->
            plan_versions (session st') = plan_versions (session st) ->
            Forall (fun r => r < length (objects st')) (session_steps st')) as Hkeep.
  { intros objs st' Hlen Hobjs Hsess. unfold session_steps.
    rewrite Hobjs, Hsess, Hlen. exact Hvalid. }
  destruct (String.eqb_spec (type (new_step d)) "CODE") as [Hcode|Hcode].
  { destruct (run_user_code self (out_code d) (world st)) as [resp w1] eqn:Hrun.
    destruct (perception_run self
      (step_result_input (Some (default "Tool Failed" (result resp))) st
         (mkPlanVersion t [r])) w1) as [p w2] eqn:Hper.
    pose proof (execute_step_code_eq self r _ _ (out_code d) resp w1 _ p w2 st
                  Hs Hcode (new_step_code d Hcode) (lookup_singleton_eq _ _)
                  Hrun Hlast Hper) as Hexec.
    change (execute_step self r st =
              Done (Some r)
                (code_executed r (new_step d) (out_code d) resp
                   (mkPlanVersion t [r]) p w2 st)) in Hexec.
    set (st1 := code_executed r (new_step d) (out_code d) resp
                  (mkPlanVersion t [r]) p w2 st) in *.
    assert (Forall (fun r => r < length (objects st1)) (session_steps st1)) as Hvalid1.
    { apply (Hkeep (objects st1)); [|done..]. subst st1. simpl. apply length_insert. }
    destruct (evaluate_step_evaluates query r (executed_code resp p (new_step d)) p
                (mkPlanVersion t [r]) st1) as (next & st' & Hev & Heval);
      [subst st1; simpl; by eapply lookup_insert_object|done|done|done|].
    exists next, st'. split; [|split].
    - by eapply iterates_code; [exact Hs|exact Hcode|by apply new_step_code
                                |apply lookup_singleton_eq|exact Hrun|exact Hlast
                                |exact Hper|exact Hev].
    - by eapply evaluates_well_formed.
    - intros fuel. by eapply while_step_continue. }
  destruct (String.eqb_spec (type (new_step d)) "CONCLUDE") as [Hconclude|Hconclude].
  { destruct (perception_run self
      (step_result_input (conclusion (new_step d)) st (mkPlanVersion t [r]))
      (world st)) as [p w1] eqn:Hper.
    pose proof (execute_step_conclude_eq self r _ _ p w1 st Hs Hconclude Hlast Hper)
      as Hexec.
    exists None, (concluded r (new_step d) (mkPlanVersion t [r]) p w1 st).
    split; [by eapply iterates_conclude|]. split.
    - split; [|split; [done|by intros r' [=]]].
      apply (Hkeep (<[r := executed_conclude p (new_step d)]> (objects st)));
        [apply length_insert|done..].
    - intros fuel. by apply while_step_break. }
  destruct (String.eqb_spec (type (new_step d)) "NOP") as [Hnop|Hnop].
  { pose proof (execute_step_nop_eq self r _ st Hs Hnop) as Hexec.
    exists None, (clarification_asked r (new_step d) st).
    split; [by eapply iterates_nop|]. split.
    - split; [|split; [done|by intros r' [=]]].
      apply (Hkeep (<[r := with_status "clarification_needed" (new_step d)]>
                      (objects st))); [apply length_insert|done..].
    - intros fuel. by apply while_step_break. }
  pose proof (execute_step_other_eq self r _ st Hs Hcode Hconclude Hnop) as Hexec.
  exists None, (fallen_through r (new_step d) st).
  split; [by eapply iterates_other|]. split.
  - split; [|split; [done|by intros r' [=]]]. by apply (Hkeep (objects st)).
  - intros fuel. by apply while_step_break.
Qed.

(** The loop, from a well-formed head, for a property that each turn
    keeps. *)
Lemma while_step_result (P : Store W -> option StepRef -> Prop) query :
  (forall st r next st',
     well_formed st (Some r) -> P st (Some r) ->
     iterates self query st r next st' -> P st' next) ->
  forall fuel step st,
    well_formed st step -> P st step ->
    loop_result P (while_step self fuel query step st).
Proof.
  intros Hturn fuel.
  induction fuel as [|fuel IH]; intros [r|] st Hwf HP; simpl; try done.
  - by exists r.
  - destruct (loop_iteration query r st Hwf) as (next & st' & Hiter & Hwf' & Heq).
    specialize (Heq fuel). simpl in Heq. rewrite Heq.
    apply IH; [done|]. by eapply Hturn.
Qed.

Lemma started_well_formed query w : well_formed (started self query w) (Some 0).
Proof.
  split; [|split].
  - unfold session_steps. simpl. apply Forall_singleton. lia.
  - done.
  - intros r [= <-]. by eexists _, _.
Qed.

Lemma run_started fuel query w :
  original_goal_achieved (opening_perception self query w) = false ->
  run self fuel query w =
    (while_step self fuel query (Some 0) ;;; get_session) (started self query w).
Proof. intros H. by rewrite run_planned. Qed.

(** [run], for a property that holds when the loop is entered, that each
    turn keeps, and that holds where the fast path returns. *)
Lemma run_has_result (P : Store W -> option StepRef -> Prop) fuel query w :
  (forall st r next st',
     well_formed st (Some r) -> P st (Some r) ->
     iterates self query st r next st' -> P st' next) ->
  (original_goal_achieved (opening_perception self query w) = true ->
     P (answered self query w) None) ->
  (original_goal_achieved (opening_perception self query w) = false ->
     P (started self query w) (Some 0)) ->
  run_result P (run self fuel query w).
Proof.
  intros Hturn Hfast Hslow.
  destruct (original_goal_achieved (opening_perception self query w)) eqn:Hopen.
  - rewrite run_fast by done. simpl. split; [done|by apply Hfast].
  - rewrite run_started by done.
    pose proof (while_step_result P query Hturn fuel (Some 0) _
                  (started_well_formed query w) (Hslow eq_refl)) as Hloop.
    unfold bind. by destruct (while_step self fuel query (Some 0) _).
Qed.

End IterationLaws.

(** ** What one turn changes *)

Section TurnChanges.

Context {W : Type} (self : AgentLoop W).

Implicit Types (st : Store W) (r : StepRef) (s : Step).

(** Which executor call a given list of events holds. *)
Ltac executor_member H :=
  cbn in H;
  repeat (apply elem_of_cons in H as [H|H];
          [first [discriminate H | injection H as -> ->; eauto]|]);
  by apply elem_of_nil in H.

Lemma decisions_app l1 l2 : decisions (l1 ++ l2) = decisions l1 ++ decisions l2.
Proof. apply omap_app. Qed.

Lemma executed_refs_app l1 l2 :
  executed_refs (l1 ++ l2) = executed_refs l1 ++ executed_refs l2.
Proof. apply omap_app. Qed.

(** One turn of the loop enters the step, assigns to that step's result,
    status and snapshot only, and adds at most one decision with its step
    and its plan version; the session keeps its identity and its opening
    snapshot. *)
Lemma iterates_changes query st r next st' :
  iterates self query st r next st' ->
  exists s s' mid (dec : option (DecisionInput * DecisionOutput)),
    objects st !! r = Some s /\
    blueprint s' = blueprint s /\
    events st' = events st ++ EvExecuteStep r s :: mid /\
    executed_refs mid = [] /\
    decisions mid = option_list dec /\
    (forall c resp, EvExecutor c resp ∈ mid ->
       type s = "CODE" /\
       exists tc, code s = Some tc /\ tool_arguments tc !! "code" = Some c) /\
    objects st' =
      <[r := s']> (objects st) ++ option_list ((fun x => new_step x.2) <$> dec) /\
    plan_versions (session st') =
      plan_versions (session st) ++
      option_list ((fun x => mkPlanVersion (out_plan_text x.2) [length (objects st)])
                     <$> dec) /\
    next = (fun _ => length (objects st)) <$> dec /\
    session_id (session st') = session_id (session st) /\
    original_query (session st') = original_query (session st) /\
    session_perception (session st') = session_perception (session st).
Proof.
  assert (forall (l : list Observation) (x : list Observation),
            map obs_event (l ++ x) = map obs_event l ++ map obs_event x)
    as Hmap by (intros; apply map_app).
  intros [s tc c resp w1 v p w2 next' st'' Hs Hty Hcode Hc Hrun Hlast Hper Hev
         |s v p w1 Hs Hty Hlast Hper|s Hs Hty|s Hs H1 H2 H3].
  - destruct Hev as [Ho|v' all d w Ho Hl Hlast' Hall Hlt Hd|v' Ho Hl Hlast' Hge
                    |v' all d w Ho Hl Hlast' Hall Hd].
    + exists s, (executed_code resp p s). eexists. exists None.
      split; [done|]. split; [done|].
      split; [unfold events; simpl; rewrite !Hmap, <- !app_assoc; reflexivity|].
      split; [reflexivity|]. split; [reflexivity|].
      split; [intros c' resp' Hin; executor_member Hin|].
      split; [simpl; by rewrite app_nil_r|].
      split; [simpl; by rewrite app_nil_r|]. done.
    + exists s, (executed_code resp p s). eexists.
      exists (Some (mid_session_request self query v' all (executed_code resp p s)
                      false (code_executed r s c resp v p w2 st), d)).
      split; [done|]. split; [done|].
      split; [unfold events; simpl; rewrite !Hmap, <- !app_assoc; reflexivity|].
      split; [reflexivity|]. split; [reflexivity|].
      split; [intros c' resp' Hin; executor_member Hin|].
      split; [reflexivity|].
      split; [simpl; by rewrite length_insert|].
      split; [simpl; by rewrite length_insert|]. done.
    + exists s, (executed_code resp p s). eexists. exists None.
      split; [done|]. split; [done|].
      split; [unfold events; simpl; rewrite !Hmap; reflexivity|].
      split; [reflexivity|]. split; [reflexivity|].
      split; [intros c' resp' Hin; executor_member Hin|].
      split; [simpl; by rewrite app_nil_r|].
      split; [simpl; by rewrite app_nil_r|]. done.
    + exists s, (executed_code resp p s). eexists.
      exists (Some (mid_session_request self query v' all (executed_code resp p s)
                      true (code_executed r s c resp v p w2 st), d)).
      split; [done|]. split; [done|].
      split; [unfold events; simpl; rewrite !Hmap, <- !app_assoc; reflexivity|].
      split; [reflexivity|]. split; [reflexivity|].
      split; [intros c' resp' Hin; executor_member Hin|].
      split; [reflexivity|].
      split; [simpl; by rewrite length_insert|].
      split; [simpl; by rewrite length_insert|]. done.
  - exists s, (executed_conclude p s). eexists. exists None.
    split; [done|]. split; [done|].
    split; [unfold events; simpl; rewrite !Hmap; reflexivity|].
    split; [reflexivity|]. split; [reflexivity|].
    split; [intros c' resp' Hin; executor_member Hin|].
    split; [simpl; by rewrite app_nil_r|].
    split; [simpl; by rewrite app_nil_r|]. done.
  - exists s, (with_status "clarification_needed" s). eexists. exists None.
    split; [done|]. split; [done|].
    split; [unfold events; simpl; rewrite !Hmap, <- !app_assoc; reflexivity|].
    split; [reflexivity|]. split; [reflexivity|].
    split; [intros c' resp' Hin; executor_member Hin|].
    split; [simpl; by rewrite app_nil_r|].
    split; [simpl; by rewrite app_nil_r|]. done.
  - exists s, s, [], None.
    split; [done|]. split; [done|].
    split; [unfold events; simpl; rewrite !Hmap; reflexivity|].
    split; [reflexivity|]. split; [reflexivity|].
    split; [intros c' resp' Hin; executor_member Hin|].
    split; [simpl; by rewrite app_nil_r, list_insert_id|].
    split; [simpl; by rewrite app_nil_r|]. done.
Qed.

Lemma lookup_new_object (l : list Step) r x y :
  (<[r := x]> l ++ [y]) !! length l = Some y.
Proof.
  rewrite lookup_app_r by (by rewrite length_insert).
  by rewrite length_insert, Nat.sub_diag.
Qed.

Lemma decisions_entry r s l : decisions (EvExecuteStep r s :: l) = decisions l.
Proof. reflexivity. Qed.

Lemma executed_refs_entry r s l :
  executed_refs (EvExecuteStep r s :: l) = r :: executed_refs l.
Proof. reflexivity. Qed.

End TurnChanges.

(** ** Every run *)

Section WholeRuns.

Context {W : Type} (self : AgentLoop W).

Implicit Types (st : Store W) (r : StepRef) (s : Step).

Lemma run_result_final (P : Store W -> option StepRef -> Prop) o :
  run_result P o -> exists step, P (final_store o) step.
Proof.
  destruct o as [a st|e st|st]; simpl; [|done|].
  - intros [_ H]. by exists None.
  - intros [r H]. by exists (Some r).
Qed.

(** X1.  Every call of [execute_step] in a run succeeds.  The step that
    the loop enters is an object that [create_step] built from a decision
    and that nothing has touched since (status "pending", no result, no
    snapshot); when it is a CODE step it carries the code payload with its
    "code" argument; and the session has a plan version by then.  So the
    look-ups of [execute_step], the payload and its argument at line 114
    and the latest plan version at lines 122 and 147, never fail in a
    run. *)
Theorem entered_steps_execute (fuel : nat) (query : string) (w : W)
    (r : StepRef) (s : Step) :
  EvExecuteStep r s ∈ events (final_store (run self fuel query w)) ->
  (exists d, s = new_step d) /\
  (type s = "CODE" ->
     exists tc c, code s = Some tc /\ tool_arguments tc !! "code" = Some c) /\
  exists fuel' st_r,
    run self fuel query w
      = (while_step self (S fuel') query (Some r) ;;; get_session) st_r /\
    objects st_r !! r = Some s /\
    plan_versions (session st_r) <> [] /\
    exists x st1, execute_step self r st_r = Done x st1.
Proof.
  intros Hin.
  destruct (run_reaches self fuel query w r s Hin)
    as (fuel' & st_r & [_ Hhead] & Hs & Hrun).
  destruct (Hhead r eq_refl) as (d & t & Hd & Hlast).
  rewrite Hd in Hs. injection Hs as <-.
  assert (type (new_step d) = "CODE" ->
          exists tc c, code (new_step d) = Some tc /\
                       tool_arguments tc !! "code" = Some c) as Hcode.
  { intros Hty. eexists _, _. split; [by apply new_step_code|].
    simpl. apply lookup_singleton_eq. }
  split; [by exists d|]. split; [exact Hcode|].
  exists fuel', st_r. split; [exact Hrun|]. split; [exact Hd|].
  split; [intros E; rewrite E in Hlast; discriminate Hlast|].
  destruct (String.eqb_spec (type (new_step d)) "CODE") as [Hty|Hty].
  { destruct (Hcode Hty) as (tc & c & Hpayload & Hc).
    destruct (run_user_code self c (world st_r)) as [resp w1] eqn:Hexec.
    destruct (perception_run self
                (step_result_input (Some (default "Tool Failed" (result resp)))
                                   st_r (mkPlanVersion t [r])) w1)
      as [p w2] eqn:Hper.
    eexists _, _.
    by eapply (execute_step_code_eq self r (new_step d) tc c resp w1 _ p w2 st_r). }
  destruct (String.eqb_spec (type (new_step d)) "CONCLUDE") as [Hconclude|Hconclude].
  { destruct (perception_run self
                (step_result_input (conclusion (new_step d)) st_r
                                   (mkPlanVersion t [r])) (world st_r))
      as [p w1] eqn:Hper.
    eexists _, _.
    by eapply (execute_step_conclude_eq self r (new_step d) _ p w1 st_r). }
  destruct (String.eqb_spec (type (new_step d)) "NOP") as [Hnop|Hnop].
  { eexists _, _. by eapply execute_step_nop_eq. }
  eexists _, _. by eapply execute_step_other_eq.
Qed.

(** The count that each turn keeps: one plan version of one step for each
    step object, one decision call for each step object. *)
Lemma run_counts (fuel : nat) (query : string) (w : W) :
  let st := final_store (run self fuel query w) in
  steps <$> plan_versions (session st)
    = (fun i => [i]) <$> seq 0 (length (objects st)) /\
  length (decisions (events st)) = length (objects st).
Proof.
  set (P := fun (st : Store W) (_ : option StepRef) =>
    steps <$> plan_versions (session st)
      = (fun i => [i]) <$> seq 0 (length (objects st)) /\
    length (decisions (events st)) = length (objects st)).
  assert (run_result P (run self fuel query w)) as H.
  { apply run_has_result; [|done..].
    intros st r next st' _ [Hv Hd] Hiter.
    apply iterates_changes in Hiter
      as (s & s' & mid & dec & Hs & _ & Hev & _ & Hdec & _ & Hobjs & Hpvs & _).
    unfold P. rewrite Hobjs, Hpvs, Hev, decisions_app, decisions_entry.
    rewrite Hdec, !length_app, length_insert, fmap_app, Hv, Hd.
    destruct dec as [[input d]|]; simpl.
    - rewrite seq_app, fmap_app. simpl. split; [done|lia].
    - rewrite Nat.add_0_r, !app_nil_r. done. }
  by apply run_result_final in H as [step [Hv Hd]].
Qed.



(** X4.  The steps are executed in the order of their creation, each one
    once: the step entries of the trace are the references 0, 1, 2, ... up
    to the number of step objects when the run returned, and up to the last
    but one when the fuel ran out on the newest step. *)
Theorem steps_executed_in_order (fuel : nat) (query : string) (w : W) :
  let o := run self fuel query w in
  executed_refs (events (final_store o))
    = seq 0 (length (objects (final_store o))
             - match o with OutOfFuel _ => 1 | _ => 0 end) /\
  NoDup (executed_refs (events (final_store o))).
Proof.
  set (P := fun (st : Store W) (step : option StepRef) =>
    executed_refs (events st)
      = seq 0 (length (objects st) - length (option_list step)) /\
    forall r, step = Some r -> S r = length (objects st)).
  assert (run_result P (run self fuel query w)) as H.
  { apply run_has_result.
    - intros st r next st' _ [Hrefs Hr] Hiter.
      apply iterates_changes in Hiter
        as (s & s' & mid & dec & Hs & _ & Hev & Hmid & _ & _ & Hobjs & _ & Hnext & _).
      specialize (Hr r eq_refl). simpl in Hrefs.
      unfold P. rewrite Hobjs, Hev, executed_refs_app, executed_refs_entry.
      rewrite Hmid, Hrefs, length_app, length_insert.
      replace (length (objects st) - 1) with r by lia. subst next.
      destruct dec as [[input d]|]; simpl.
      + split; [|intros r' [= <-]; lia].
        replace (length (objects st) + 1 - 1) with (S r) by lia.
        by rewrite seq_S.
      + split; [|done].
        replace (length (objects st) + 0 - 0) with (S r) by lia.
        by rewrite seq_S.
    - intros _. by split.
    - intros _. split; [done|]. by intros r [= <-]. }
  assert (executed_refs (events (final_store (run self fuel query w)))
            = seq 0 (length (objects (final_store (run self fuel query w)))
                     - match run self fuel query w with OutOfFuel _ => 1 | _ => 0 end))
    as Heq.
  { destruct (run self fuel query w) as [a st|e st|st]; simpl in *; [|done|].
    - destruct H as [_ [H _]]. simpl in H. by rewrite H.
    - destruct H as [r [H _]]. by rewrite H. }
  simpl. split; [exact Heq|]. rewrite Heq. apply NoDup_ListNoDup, List.seq_NoDup.
Qed.

(** X5.  However a run ends, the session still has the identifier drawn at
    its creation, the query it was created for, and the snapshot of the
    opening perception call: nothing in the loop writes to them again. *)
Theorem session_keeps_its_identity (fuel : nat) (query : string) (w : W) :
  let a := session (final_store (run self fuel query w)) in
  session_id a = fst (uuid4 self w) /\
  original_query a = query /\
  session_perception a = Some (opening_perception self query w).
Proof.
  set (P := fun (st : Store W) (_ : option StepRef) =>
    session_id (session st) = fst (uuid4 self w) /\
    original_query (session st) = query /\
    session_perception (session st) = Some (opening_perception self query w)).
  assert (run_result P (run self fuel query w)) as H.
  { apply run_has_result; [|done..].
    intros st r next st' _ (H1 & H2 & H3) Hiter.
    apply iterates_changes in Hiter
      as (s & s' & mid & dec & _ & _ & _ & _ & _ & _ & _ & _ & _ & E1 & E2 & E3).
    unfold P. by rewrite E1, E2, E3. }
  by apply run_result_final in H as [step H].
Qed.

(** X6.  The executor only ever runs code that the decision component
    returned: the argument of every executor call of a run is the [code]
    of a decision output of type "CODE" that is in the trace. *)
Theorem executor_runs_decided_code (fuel : nat) (query : string) (w : W)
    (c : option string) (resp : ExecutorResponse) :
  EvExecutor c resp ∈ events (final_store (run self fuel query w)) ->
  exists input d,
    EvDecision input d ∈ events (final_store (run self fuel query w)) /\
    out_type d = "CODE" /\
    out_code d = c.
Proof.
  set (P := fun (st : Store W) (step : option StepRef) =>
    (forall c resp, EvExecutor c resp ∈ events st ->
       exists input d,
         EvDecision input d ∈ events st /\ out_type d = "CODE" /\ out_code d = c) /\
    (forall r, step = Some r ->
       exists input d,
         EvDecision input d ∈ events st /\ objects st !! r = Some (new_step d))).
  assert (run_result P (run self fuel query w)) as H.
  { apply run_has_result.
    - intros st r next st' _ [Hcalls Hstep] Hiter.
      destruct (Hstep r eq_refl) as (input0 & d0 & Hin0 & Hs0).
      apply iterates_changes in Hiter
        as (s & s' & mid & dec & Hs & _ & Hev & _ & Hdec & Hexecutor & Hobjs & _
            & Hnext & _).
      rewrite Hs0 in Hs. injection Hs as <-.
      assert (forall e, e ∈ events st -> e ∈ events st') as Hold
        by (intros e He; rewrite Hev; apply elem_of_app; by left).
      split.
      + intros c' resp' Hin. rewrite Hev in Hin.
        apply elem_of_app in Hin as [Hin|Hin].
        { destruct (Hcalls c' resp' Hin) as (input & d & Hd & Hty & Hc).
          exists input, d. split; [by apply Hold|done]. }
        apply elem_of_cons in Hin as [[=]|Hin].
        destruct (Hexecutor c' resp' Hin) as (Hty & tc & Hcode & Hc).
        exists input0, d0. split; [by apply Hold|]. split; [done|].
        rewrite (new_step_code d0 Hty) in Hcode. injection Hcode as <-.
        simpl in Hc. rewrite lookup_singleton_eq in Hc. by injection Hc.
      + intros n ->. destruct dec as [[input d]|]; [|done].
        injection Hnext as ->. exists input, d. split.
        * rewrite Hev. apply elem_of_app. right. apply elem_of_cons. right.
          assert ((input, d) ∈ decisions mid) as Hin
            by (rewrite Hdec; apply list_elem_of_here).
          apply list_elem_of_omap in Hin as (e & He & Heq).
          destruct e; try discriminate Heq. by injection Heq as -> ->.
        * rewrite Hobjs. apply lookup_new_object.
    - intros _. split; [|done]. intros c' resp' Hin. unfold events in Hin.
      simpl in Hin.
      repeat (apply elem_of_cons in Hin as [Hin|Hin]; [discriminate Hin|]).
      by apply elem_of_nil in Hin.
    - intros _. split.
      + intros c' resp' Hin. unfold events in Hin. simpl in Hin.
        repeat (apply elem_of_cons in Hin as [Hin|Hin]; [discriminate Hin|]).
        by apply elem_of_nil in Hin.
      + intros r [= <-]. eexists _, _. split; [|reflexivity].
        unfold events. simpl. do 2 apply list_elem_of_further.
        apply list_elem_of_here. }
  intros Hin. apply run_result_final in H as [step [H _]]. exact (H c resp Hin).
Qed.

End WholeRuns.

Lemma entered_steps_execute_witness :
  EvExecuteStep 0 (new_step count_step)
    ∈ events (final_store (run scripted 2 "How many words?" counting_world)) /\
  (exists tc c,
     code (new_step count_step) = Some tc /\ tool_arguments tc !! "code" = Some c) /\
  exists fuel' st_r,
    run scripted 2 "How many words?" counting_world
      = (while_step scripted (S fuel') "How many words?" (Some 0) ;;; get_session)
          st_r /\
    objects st_r !! 0 = Some (new_step count_step) /\
    plan_versions (session st_r) <> [] /\
    exists x st1, execute_step scripted 0 st_r = Done x st1.
Proof.
  assert (EvExecuteStep 0 (new_step count_step)
            ∈ events (final_store (run scripted 2 "How many words?" counting_world)))
    as Hin by (apply (list_elem_of_lookup_2 _ 4); vm_compute; reflexivity).
  split; [exact Hin|].
  destruct (entered_steps_execute scripted 2 "How many words?" counting_world
              _ _ Hin) as (_ & Hcode & Hrun).
  split; [exact (Hcode eq_refl) | exact Hrun].
Defined.

Lemma executor_runs_decided_code_witness :
  EvExecutor (Some "result = count_words('notes.txt')") tool_success
    ∈ events (final_store (run scripted 2 "How many words?" counting_world)) /\
  exists input d,
    EvDecision input d
      ∈ events (final_store (run scripted 2 "How many words?" counting_world)) /\
    out_type d = "CODE" /\
    out_code d = Some "result = count_words('notes.txt')".
Proof.
  assert (EvExecutor (Some "result = count_words('notes.txt')") tool_success
            ∈ events (final_store (run scripted 2 "How many words?" counting_world)))
    as Hin by (apply (list_elem_of_lookup_2 _ 5); vm_compute; reflexivity).
  split; [exact Hin|].
  exact (executor_runs_decided_code scripted 2 "How many words?" counting_world
           _ _ Hin).
Defined.

(** ** No cap on the number of turns *)

Section NoCap.

Context {W : Type} (self : AgentLoop W).

Implicit Types (st : Store W) (r : StepRef) (s : Step).

Lemma while_step_stubborn query :
  (forall input w,
     original_goal_achieved (fst (perception_run self input w)) = false /\
     local_goal_achieved (fst (perception_run self input w)) = false) ->
  (forall input w, out_type (fst (decision_run self input w)) = "CODE") ->
  forall fuel r st,
    well_formed st (Some r) ->
    (exists d, objects st !! r = Some (new_step d) /\ out_type d = "CODE") ->
    exists st',
      while_step self fuel query (Some r) st = OutOfFuel st' /\
      length (executed_refs (events st'))
        = length (executed_refs (events st)) + fuel /\
      length (objects st') = length (objects st) + fuel.
Proof.
  intros Hper Hdec fuel.
  induction fuel as [|fuel IH]; intros r st Hwf (d & Hs & Hty).
  { exists st. split; [done|]. split; lia. }
  destruct (loop_iteration self query r st Hwf) as (next & st' & Hiter & Hwf' & Heq).
  rewrite Heq.
  pose proof (iterates_changes self query st r next st' Hiter)
    as (s0 & s' & mid & dec & _ & _ & Hev & Hmid & _ & _ & Hobjs & _ & Hnext & _).
  assert (exists d', next = Some (length (objects st)) /\
                     objects st' !! length (objects st) = Some (new_step d') /\
                     out_type d' = "CODE") as (d' & -> & Hs' & Hty').
  { destruct Hiter as [s tc c resp w1 v p w2 next' st'' Hs1 Hty1 Hcode Hc Hrun Hlast
                         Hp Hev'|s v p w1 Hs1 Hty1 _ _|s Hs1 Hty1|s Hs1 H1 _ _];
      rewrite Hs in Hs1; injection Hs1 as <-; simpl in *; try congruence.
    pose proof (Hper (step_result_input
                        (Some (default "Tool Failed" (result resp))) st v) w1)
      as [Ho Hl].
    rewrite Hp in Ho, Hl. simpl in Ho, Hl.
    destruct Hev' as [Ho'|v' all d' w Ho' Hl' _ _ _ Hd|v' Ho' Hl' _ _
                     |v' all d' w Ho' Hl' _ _ Hd]; try congruence.
    exists d'. split; [simpl; by rewrite length_insert|]. split.
    - apply lookup_new_object.
    - specialize (Hdec (mid_session_request self query v' all
                          (executed_code resp p (new_step d)) true
                          (code_executed r (new_step d) c resp v p w2 st))
                       w2).
      simpl in Hd. by rewrite Hd in Hdec. }
  destruct dec as [[input d0]|]; [|done].
  destruct (IH (length (objects st)) st' Hwf') as (st'' & Hloop & Hrefs & Hlen);
    [by exists d'|].
  exists st''. split; [done|].
  rewrite Hrefs, Hlen, Hev, executed_refs_app, executed_refs_entry, Hmid, Hobjs.
  rewrite !length_app, length_insert. simpl. lia.
Qed.

(** X7.  The loop has no cap on its turns.  With a perception that never
    reports a goal achieved and a decision that always answers with a CODE
    step, [run] does not return: whatever fuel it is given, it uses it up,
    having executed one step per unit of fuel and created one step more. *)
Theorem loop_has_no_cap (fuel : nat) (query : string) (w : W) :
  (forall input w',
     original_goal_achieved (fst (perception_run self input w')) = false /\
     local_goal_achieved (fst (perception_run self input w')) = false) ->
  (forall input w', out_type (fst (decision_run self input w')) = "CODE") ->
  exists st,
    run self fuel query w = OutOfFuel st /\
    length (executed_refs (events st)) = fuel /\
    length (objects st) = S fuel /\
    length (plan_versions (session st)) = S fuel.
Proof.
  intros Hper Hdec.
  assert (original_goal_achieved (opening_perception self query w) = false) as Hopen
    by apply Hper.
  destruct (while_step_stubborn query Hper Hdec fuel 0 (started self query w)
              (started_well_formed self query w)) as (st & Hloop & Hrefs & Hlen).
  { eexists. split; [reflexivity|]. apply Hdec. }
  assert (run self fuel query w = OutOfFuel st) as Hrun.
  { rewrite run_started by done. unfold bind.
    match goal with
    | |- match ?x with _ => _ end = _ =>
        assert (x = OutOfFuel st) as -> by exact Hloop
    end.
    reflexivity. }
  exists st. split; [done|]. split; [exact Hrefs|]. split; [exact Hlen|].
  pose proof (run_counts self fuel query w) as [Hpv _].
  rewrite Hrun in Hpv. simpl in Hpv.
  by rewrite <- (length_fmap steps), Hpv, length_fmap, length_seq.
Qed.

End NoCap.

Lemma loop_has_no_cap_witness :
  (forall input w',
     original_goal_achieved (fst (perception_run stubborn input w')) = false /\
     local_goal_achieved (fst (perception_run stubborn input w')) = false) /\
  (forall input w', out_type (fst (decision_run stubborn input w')) = "CODE") /\
  exists st,
    run stubborn 5 "How many words?" tt = OutOfFuel st /\
    length (executed_refs (events st)) = 5.
Proof.
  assert (forall input w',
     original_goal_achieved (fst (perception_run stubborn input w')) = false /\
     local_goal_achieved (fst (perception_run stubborn input w')) = false) as Hper
    by (intros; split; reflexivity).
  assert (forall input w', out_type (fst (decision_run stubborn input w')) = "CODE")
    as Hdec by (intros; reflexivity).
  split; [exact Hper|]. split; [exact Hdec|].
  destruct (loop_has_no_cap stubborn 5 "How many words?" tt Hper Hdec)
    as (st & Hrun & Hrefs & _).
  exists st. split; [exact Hrun | exact Hrefs].
Defined.

(** ** The failure memory as a whole *)

Lemma remember_failure_drop f (window : list MemoryRecord) :
  length window <= 3 ->
  remember_failure f window
    = drop (length (window ++ [f]) - 3) (window ++ [f]).
Proof.
  intros Hlen. unfold remember_failure, GLOBAL_PREVIOUS_FAILURE_STEPS.
  destruct (Nat.ltb_spec 3 (length (window ++ [f]))) as [Hlt|Hge].
  - rewrite length_app in *. simpl in *.
    replace (length window + 1 - 3) with 1 by lia.
    by destruct window.
  - by replace (length (window ++ [f]) - 3) with 0 by lia.
Qed.

Lemma remember_failures_drop (fs window : list MemoryRecord) :
  length window <= 3 ->
  foldl (fun w f => remember_failure f w) window fs
    = drop (length (window ++ fs) - 3) (window ++ fs).
Proof.
  revert window. induction fs as [|f fs IH]; intros window Hlen; simpl.
  - rewrite app_nil_r. by replace (length window - 3) with 0 by lia.
  - rewrite IH by (by apply remember_failure_length).
    rewrite (remember_failure_drop f window Hlen).
    set (X := window ++ [f]).
    replace (window ++ f :: fs) with (X ++ fs)
      by (subst X; by rewrite <- app_assoc).
    assert (length X - 3 <= length X) as Hk by lia.
    rewrite <- (drop_app_le X fs (length X - 3)) by lia.
    rewrite drop_drop. f_equal.
    rewrite length_drop, !length_app. lia.
Qed.

(** X8.  After any sequence of failures, recorded one by one, the failure
    memory holds the last three of them in the order they happened, or all
    of them when they are fewer. *)
Theorem failure_memory_is_last_three (fs : list MemoryRecord) :
  foldl (fun window f => remember_failure f window) [] fs
    = drop (length fs - 3) fs /\
  length (foldl (fun window f => remember_failure f window) [] fs)
    = Nat.min 3 (length fs).
Proof.
  pose proof (remember_failures_drop fs [] ltac:(simpl; lia)) as H.
  simpl in H. rewrite H. split; [done|]. rewrite length_drop. lia.
Qed.

(** ** When the methods raise *)

Section Failures.

Context {W : Type} (self : AgentLoop W).

Implicit Types (st : Store W) (r : StepRef) (s : Step).

Lemma execute_step_no_code_eq r s st :
  objects st !! r = Some s -> type s = "CODE" -> code s = None ->
  execute_step self r st = Raised AttributeError (fallen_through r s st).
Proof.
  intros Hs Hty Hcode. unfold execute_step, bind, deref. rewrite Hs. simpl.
  by rewrite Hty, Hcode.
Qed.

Lemma execute_step_no_argument_eq r s tc st :
  objects st !! r = Some s -> type s = "CODE" -> code s = Some tc ->
  tool_arguments tc !! "code" = None ->
  execute_step self r st = Raised KeyError (fallen_through r s st).
Proof.
  intros Hs Hty Hcode Hc. unfold execute_step, bind, deref. rewrite Hs. simpl.
  rewrite Hty, Hcode. simpl. by rewrite Hc.
Qed.

Lemma execute_step_code_unplanned r s tc c resp w1 st :
  objects st !! r = Some s -> type s = "CODE" -> code s = Some tc ->
  tool_arguments tc !! "code" = Some c ->
  run_user_code self c (world st) = (resp, w1) ->
  plan_versions (session st) = [] ->
  execute_step self r st =
    Raised IndexError
      (mkStore w1
         (<[r := with_status "completed"
                   (with_execution_result (Some (ResultResponse resp)) s)]>
            (objects st))
         (session st) (session_memory st)
         (trace st ++
          [mkObservation (EvExecuteStep r s) (session_memory st);
           mkObservation (EvExecutor c resp) (session_memory st)])).
Proof.
  intros Hs Hty Hcode Hc Hrun Hnone. unfold execute_step, bind, deref.
  rewrite Hs. simpl. rewrite Hty, Hcode. simpl. rewrite Hc. simpl.
  unfold call_executor, bind. simpl. rewrite Hrun. simpl.
  unfold update_step. simpl. rewrite Hs.
  simpl. rewrite (lookup_insert_object _ _ _ _ Hs). simpl.
  unfold latest_plan_text. simpl. rewrite Hnone. simpl.
  by rewrite list_insert_insert_eq, <- app_assoc.
Qed.

Lemma execute_step_conclude_unplanned r s st :
  objects st !! r = Some s -> type s = "CONCLUDE" ->
  plan_versions (session st) = [] ->
  execute_step self r st =
    Raised IndexError
      (mkStore (world st)
         (<[r := with_status "completed"
                   (with_execution_result (ResultText <$> conclusion s) s)]>
            (objects st))
         (session st) (session_memory st)
         (trace st ++ [mkObservation (EvExecuteStep r s) (session_memory st)])).
Proof.
  intros Hs Hty Hnone. unfold execute_step, bind, deref.
  rewrite Hs. simpl. rewrite Hty. simpl.
  unfold update_step. simpl. rewrite Hs.
  simpl. rewrite (lookup_insert_object _ _ _ _ Hs). simpl.
  unfold latest_plan_text. simpl. rewrite Hnone. simpl.
  by rewrite list_insert_insert_eq.
Qed.

(** X9.  [execute_step] raises in three situations only, and never on a
    NOP step or a step of an unknown type.  A CODE step without a code
    payload gives AttributeError and a payload without a "code" argument
    gives KeyError, both before anything is done: the executor is not
    called and no object is touched.  A CODE or CONCLUDE step in a session
    without any plan version gives IndexError.  (InvalidReference is the
    model's own: a reference to no object.) *)
Theorem execute_step_raises_only_when (r : StepRef) (st : Store W)
    (e : PyError) (st' : Store W) :
  execute_step self r st = Raised e st' ->
  (objects st !! r = None /\ e = InvalidReference /\ st' = st) \/
  exists s,
    objects st !! r = Some s /\
    ((type s = "CODE" /\ code s = None /\
      e = AttributeError /\ st' = fallen_through r s st) \/
     (type s = "CODE" /\
      (exists tc, code s = Some tc /\ tool_arguments tc !! "code" = None) /\
      e = KeyError /\ st' = fallen_through r s st) \/
     ((type s = "CODE" \/ type s = "CONCLUDE") /\
      plan_versions (session st) = [] /\ e = IndexError)).
Proof.
  intros H. destruct (objects st !! r) as [s|] eqn:Hs.
  2: { left. unfold execute_step, bind, deref in H. rewrite Hs in H.
       by injection H as <- <-. }
  right. exists s. split; [done|].
  destruct (String.eqb_spec (type s) "CODE") as [Hcode|Hcode].
  - destruct (code s) as [tc|] eqn:Hpayload.
    2: { rewrite (execute_step_no_code_eq r s st) in H by done.
         injection H as <- <-. by left. }
    destruct (tool_arguments tc !! "code") as [c|] eqn:Hc.
    2: { rewrite (execute_step_no_argument_eq r s tc st) in H by done.
         injection H as <- <-. right. left. by eauto 10. }
    destruct (run_user_code self c (world st)) as [resp w1] eqn:Hrun.
    destruct (last (plan_versions (session st))) as [v|] eqn:Hlast.
    + destruct (perception_run self
        (step_result_input (Some (default "Tool Failed" (result resp))) st v) w1)
        as [p w2] eqn:Hper.
      by rewrite (execute_step_code_eq self r s tc c resp w1 v p w2 st) in H.
    + apply last_None in Hlast.
      rewrite (execute_step_code_unplanned r s tc c resp w1 st) in H by done.
      injection H as <- _. right. right. by eauto.
  - destruct (String.eqb_spec (type s) "CONCLUDE") as [Hconclude|Hconclude].
    + destruct (last (plan_versions (session st))) as [v|] eqn:Hlast.
      * destruct (perception_run self (step_result_input (conclusion s) st v)
                    (world st)) as [p w1] eqn:Hper.
        by rewrite (execute_step_conclude_eq self r s v p w1 st) in H.
      * apply last_None in Hlast.
        rewrite (execute_step_conclude_unplanned r s st) in H by done.
        injection H as <- _. right. right. by eauto.
    + destruct (String.eqb_spec (type s) "NOP") as [Hnop|Hnop].
      * by rewrite (execute_step_nop_eq self r s st) in H.
      * by rewrite (execute_step_other_eq self r s st) in H.
Qed.

(** X10.  In a session without any plan version, [execute_step] fails
    half-way.  On a CODE step the executor has already run and the step
    already holds its result and the status "completed" when IndexError is
    raised; on a CONCLUDE step the step already holds the conclusion and the
    status "completed".  In both cases perception is not called, no
    snapshot is attached, and the session and the failure memory are as
    before. *)
Theorem execute_step_without_plan_version (r : StepRef) (s : Step) (st : Store W) :
  objects st !! r = Some s ->
  plan_versions (session st) = [] ->
  (forall tc c,
     type s = "CODE" -> code s = Some tc -> tool_arguments tc !! "code" = Some c ->
     exists st' s',
       execute_step self r st = Raised IndexError st' /\
       objects st' !! r = Some s' /\
       status s' = "completed" /\
       execution_result s'
         = Some (ResultResponse (fst (run_user_code self c (world st)))) /\
       perception s' = perception s /\
       events st' =
         events st ++
         [EvExecuteStep r s;
          EvExecutor c (fst (run_user_code self c (world st)))] /\
       session st' = session st /\
       session_memory st' = session_memory st) /\
  (type s = "CONCLUDE" ->
     exists st' s',
       execute_step self r st = Raised IndexError st' /\
       objects st' !! r = Some s' /\
       status s' = "completed" /\
       execution_result s' = ResultText <$> conclusion s /\
       perception s' = perception s /\
       events st' = events st ++ [EvExecuteStep r s] /\
       session st' = session st /\
       session_memory st' = session_memory st).
Proof.
  intros Hs Hnone. split.
  - intros tc c Hty Hcode Hc.
    destruct (run_user_code self c (world st)) as [resp w1] eqn:Hrun.
    eexists _, _. split; [by eapply execute_step_code_unplanned|].
    split; [simpl; by eapply lookup_insert_object|].
    split; [done|]. split; [done|]. split; [done|].
    split; [unfold events; simpl; by rewrite map_app|]. done.
  - intros Hty.
    eexists _, _. split; [by eapply execute_step_conclude_unplanned|].
    split; [simpl; by eapply lookup_insert_object|].
    split; [done|]. split; [done|]. split; [done|].
    split; [unfold events; simpl; by rewrite map_app|]. done.
Qed.

(** When a look-up of [evaluate_step] fails, nothing has been done yet. *)
Lemma evaluate_step_raised (r : StepRef) (query : string) (st : Store W)
    (e : PyError) (st' : Store W) :
  evaluate_step self r query st = Raised e st' ->
  st' = st /\
  (e = AttributeError ->
     exists s, objects st !! r = Some s /\ perception s = None) /\
  (e = IndexError ->
     exists s p, objects st !! r = Some s /\ perception s = Some p /\
                 original_goal_achieved p = false /\
                 plan_versions (session st) = []).
Proof.
  intros H. destruct (objects st !! r) as [s|] eqn:Hs.
  2: { unfold evaluate_step, bind, deref in H. rewrite Hs in H.
       injection H as <- <-. by repeat split. }
  destruct (perception s) as [p|] eqn:Hp.
  2: { unfold evaluate_step, bind, deref in H. rewrite Hs, Hp in H.
       injection H as <- <-. split; [done|]. split; [by eauto|done]. }
  rewrite (evaluate_step_cases self r s p query st Hs Hp) in H.
  destruct (original_goal_achieved p) eqn:Ho; [done|].
  destruct (last (plan_versions (session st))) as [v|] eqn:Hlast.
  2: { assert (get_next_step self query r st = Raised IndexError st) as E1.
       { unfold get_next_step, bind, latest_plan_text. by rewrite Hlast. }
       assert (replan_after_failure self query r st = Raised IndexError st) as E2.
       { unfold replan_after_failure, run_mid_session_decision, bind, get_session,
           latest_plan_text. by rewrite Hlast. }
       apply last_None in Hlast.
       destruct (local_goal_achieved p); [rewrite E1 in H|rewrite E2 in H];
         injection H as <- <-; (split; [done|]); (split; [done|]);
         intros _; by exists s, p. }
  destruct (deref_all st (session_steps st)) as [all|] eqn:Hall.
  - exfalso. destruct (local_goal_achieved p).
    + destruct (Z_lt_dec (index s + 1) (Z.of_nat (length (plan_text v)))) as [Hlt|Hge].
      * destruct (decision_run self (mid_session_request self query v all s false st)
                    (world st)) as [d w] eqn:Hd.
        by rewrite (get_next_step_eq self r s v all query d w st) in H.
      * by rewrite (get_next_step_exhausted self r s v query st) in H.
    + destruct (decision_run self (mid_session_request self query v all s true st)
                  (world st)) as [d w] eqn:Hd.
      by rewrite (replan_after_failure_eq self r s v all query d w st) in H.
  - assert (forall b, run_mid_session_decision self query r b st
                      = Raised InvalidReference st) as Emid.
    { intros b. unfold run_mid_session_decision, bind, get_session, latest_plan_text.
      rewrite Hlast. unfold deref_all, session_steps in Hall. by rewrite Hall. }
    destruct (local_goal_achieved p).
    + destruct (Z_lt_dec (index s + 1) (Z.of_nat (length (plan_text v)))) as [Hlt|Hge].
      * unfold get_next_step, bind at 1, latest_plan_text in H. rewrite Hlast in H.
        unfold bind at 1, deref in H. rewrite Hs in H.
        apply Z.ltb_lt in Hlt. rewrite Hlt in H.
        unfold bind in H. rewrite Emid in H. injection H as <- <-.
        by repeat split.
      * by rewrite (get_next_step_exhausted self r s v query st) in H.
    + unfold replan_after_failure, bind in H. rewrite Emid in H.
      injection H as <- <-. by repeat split.
Qed.

(** X11.  The two look-ups of [evaluate_step] that can fail, do so before
    anything is done.  [evaluate_step] raises AttributeError exactly when
    the step has no snapshot (line 165 reads [step.perception]), and
    IndexError exactly when the snapshot says that the original goal is
    not achieved and the session has no plan version (lines 177 and 207
    read [session.plan_versions[-1]]).  In both cases the store is as it
    was: no decision has been asked, no step has been created and no plan
    version added. *)
Theorem evaluate_step_fails_early (r : StepRef) (query : string)
    (st st' : Store W) :
  (evaluate_step self r query st = Raised AttributeError st' <->
     st' = st /\ exists s, objects st !! r = Some s /\ perception s = None) /\
  (evaluate_step self r query st = Raised IndexError st' <->
     st' = st /\
     exists s p, objects st !! r = Some s /\ perception s = Some p /\
                 original_goal_achieved p = false /\
                 plan_versions (session st) = []).
Proof.
  split; split.
  - intros H. destruct (evaluate_step_raised r query st _ _ H) as (-> & Ha & _).
    split; [done|]. by apply Ha.
  - intros (-> & s & Hs & Hp).
    unfold evaluate_step, bind, deref. by rewrite Hs, Hp.
  - intros H. destruct (evaluate_step_raised r query st _ _ H) as (-> & _ & Hi).
    split; [done|]. by apply Hi.
  - intros (-> & s & p & Hs & Hp & Ho & Hnone).
    rewrite (evaluate_step_cases self r s p query st Hs Hp), Ho.
    destruct (local_goal_achieved p).
    + unfold get_next_step, bind, latest_plan_text. by rewrite Hnone.
    + unfold replan_after_failure, run_mid_session_decision, bind, get_session,
        latest_plan_text. by rewrite Hnone.
Qed.

End Failures.

Lemma execute_step_raises_only_when_witness :
  execute_step scripted 0 bare_store
    = Raised AttributeError (fallen_through 0 bare_step bare_store) /\
  objects bare_store !! 0 = Some bare_step /\
  code bare_step = None.
Proof.
  assert (execute_step scripted 0 bare_store
            = Raised AttributeError (fallen_through 0 bare_step bare_store)) as H
    by (vm_compute; reflexivity).
  split; [exact H|].
  destruct (execute_step_raises_only_when scripted 0 bare_store _ _ H)
    as [(Hnone & _)|(s & Hs & _)].
  - vm_compute in Hnone. discriminate Hnone.
  - split; reflexivity.
Defined.

Lemma execute_step_without_plan_version_witness :
  objects unplanned_store !! 0 = Some (new_step count_step) /\
  plan_versions (session unplanned_store) = [] /\
  exists st' s',
    execute_step scripted 0 unplanned_store = Raised IndexError st' /\
    objects st' !! 0 = Some s' /\
    status s' = "completed".
Proof.
  split; [reflexivity|]. split; [reflexivity|].
  destruct (proj1 (execute_step_without_plan_version scripted 0
                     (new_step count_step) unplanned_store eq_refl eq_refl)
              (mkToolCode "raw_code_block" {[ "code" := out_code count_step ]})
              (out_code count_step) eq_refl eq_refl eq_refl)
    as (st' & s' & Hexec & Hs' & Hstatus & _).
  exists st', s'. split; [exact Hexec|]. split; [exact Hs' | exact Hstatus].
Defined.

Lemma evaluate_step_fails_early_witness :
  objects failing_store !! 0 = Some (new_step count_step) /\
  perception (new_step count_step) = None /\
  evaluate_step scripted 0 "How many words?" failing_store
    = Raised AttributeError failing_store.
Proof.
  split; [reflexivity|]. split; [reflexivity|].
  apply (proj1 (evaluate_step_fails_early scripted 0 "How many words?"
                  failing_store failing_store)).
  split; [reflexivity|]. exists (new_step count_step). split; reflexivity.
Defined.

(** ** A step of an unknown type *)

Section UnknownType.

Context {W : Type} (self : AgentLoop W).

(** X12.  A first decision whose type is none of "CODE", "CONCLUDE" and
    "NOP" (the comparison is exact, so "code" is one) ends the run at once
    and without an error: [run] returns the session with the state it was
    created with, so no goal achieved and no final answer; the step is
    entered once and stays as it was created, with status "pending"; the
    executor is not called, no perception is asked after the opening one,
    and no further decision is taken. *)
Theorem unknown_type_ends_run (fuel : nat) (query : string) (w : W) :
  original_goal_achieved (opening_perception self query w) = false ->
  out_type (initial_decision self query w) <> "CODE" ->
  out_type (initial_decision self query w) <> "CONCLUDE" ->
  out_type (initial_decision self query w) <> "NOP" ->
  exists a st,
    run self (S fuel) query w = Done a st /\
    state a = initial_state /\
    length (plan_versions a) = 1 /\
    objects st = [new_step (initial_decision self query w)] /\
    status (new_step (initial_decision self query w)) = "pending" /\
    events st =
      events (started self query w)
      ++ [EvExecuteStep 0 (new_step (initial_decision self query w))] /\
    Forall (fun e => is_executor_event e = false) (events st) /\
    length (decisions (events st)) = 1.
Proof.
  intros Hopen H1 H2 H3.
  set (d := initial_decision self query w) in *.
  exists (session (started self query w)),
         (fallen_through 0 (new_step d) (started self query w)).
  split.
  { rewrite run_started by done. unfold bind at 1. simpl while_step.
    unfold bind at 1.
    by rewrite (execute_step_other_eq self 0 (new_step d) (started self query w)). }
  split; [done|]. split; [done|]. split; [done|]. split; [done|].
  split; [unfold events; simpl; by rewrite ?map_app|].
  split; [unfold events; simpl; by repeat constructor|done].
Qed.

End UnknownType.

Lemma unknown_type_ends_run_witness :
  exists a st,
    run scripted 1 "How many words?" miscased_world = Done a st /\
    state a = initial_state /\
    objects st = [new_step miscased] /\
    Forall (fun e => is_executor_event e = false) (events st).
Proof.
  destruct (unknown_type_ends_run scripted 0 "How many words?" miscased_world)
    as (a & st & Hrun & Hstate & _ & Hobjs & _ & _ & Hexec & _).
  - reflexivity.
  - vm_compute. discriminate.
  - vm_compute. discriminate.
  - vm_compute. discriminate.
  - exists a, st. split; [exact Hrun|]. split; [exact Hstate|].
    split; [exact Hobjs | exact Hexec].
Defined.

(** ** What the decision is told *)

Section Requests.

Context {W : Type} (self : AgentLoop W).

Implicit Types (st : Store W) (r : StepRef) (s : Step).

Lemma lookup_all {A} (l : list A) :
  mapM (fun i => l !! i) (seq 0 (length l)) = Some l.
Proof.
  apply mapM_Some.
  enough (forall pre : list A,
            Forall2 (fun i y => (pre ++ l) !! i = Some y)
                    (seq (length pre) (length l)) l) as H by exact (H []).
  induction l as [|x l IH]; intros pre; simpl; [constructor|].
  constructor.
  - by rewrite list_lookup_middle.
  - specialize (IH (pre ++ [x])). rewrite length_app, Nat.add_1_r in IH.
    by rewrite <- app_assoc in IH.
Qed.

Lemma filter_all {A} (P : A -> Prop) `{!forall x, Decision (P x)} (l : list A) :
  Forall P l -> filter P l = l.
Proof.
  induction 1 as [|x l Hx Hl IH]; [done|].
  rewrite filter_cons_True by done. by rewrite IH.
Qed.

Lemma app_snoc_split {A} (l before after : list A) x y :
  l ++ [x] = before ++ y :: after ->
  (after = [] /\ l = before /\ x = y) \/
  exists after', after = after' ++ [x] /\ l = before ++ y :: after'.
Proof.
  destruct after as [|a after _] using rev_ind; intros H.
  - left. apply app_inj_tail in H as [-> ->]. done.
  - right. exists after.
    rewrite app_comm_cons, app_assoc in H.
    apply app_inj_tail in H as [-> ->]. done.
Qed.

(** A turn that hands a step on took one decision; here is what it asked
    and what it left. *)
Lemma iterates_request query st r n st' :
  iterates self query st r (Some n) st' ->
  exists s c resp v p w2 all d,
    objects st !! r = Some s /\
    last (plan_versions (session st)) = Some v /\
    deref_all (code_executed r s c resp v p w2 st) (session_steps st) = Some all /\
    n = length (objects st) /\
    objects st' = <[r := executed_code resp p s]> (objects st) ++ [new_step d] /\
    plan_versions (session st') =
      plan_versions (session st)
      ++ [mkPlanVersion (out_plan_text d) [length (objects st)]] /\
    decisions (events st') =
      decisions (events st)
      ++ [(MidSessionRequest (strategy self) query
             (length (plan_versions (session st))) (plan_text v)
             (filter (fun x => status x = "completed") all)
             (executed_code resp p s) (negb (local_goal_achieved p)), d)].
Proof.
  inversion 1 as [s tc c resp w1 v p w2 next st2 Hs Hty Hcode Hc Hrun Hlast Hper Heval
                 | | | ]; subst.
  inversion Heval as [ | v' all d w Ho Hl Hlast' Hall Hidx Hd
                       | | v' all d w Ho Hl Hlast' Hall Hd ]; subst.
  all: simpl in Hlast'; rewrite Hlast in Hlast'; injection Hlast' as <-.
  all: exists s, c, resp, v, p, w2, all, d.
  all: split; [done|]; split; [done|]; split; [exact Hall|].
  all: split; [simpl; by rewrite length_insert|].
  all: split; [done|]; split; [simpl; by rewrite length_insert|].
  all: unfold events; simpl; rewrite !map_app, !decisions_app; simpl.
  all: unfold mid_session_request; simpl; rewrite ?app_nil_r, Hl; reflexivity.
Qed.

(** X13.  What every decision call of a run is asked.  The first call is
    the initial request with the opening snapshot.  Every later call is a
    mid-session request that reports the whole history: its plan is the
    plan text of the decision just before, its plan version is the number
    of decisions taken so far, its completed steps are the steps of all the
    earlier decisions in order, each with status "completed" (the step that
    has just failed included), the current step is the last of them, and
    the failure flag is set exactly when the snapshot of the current step
    says that its local goal was not achieved. *)
Theorem requests_report_history (fuel : nat) (query : string) (w : W)
    (before : list (DecisionInput * DecisionOutput))
    (input : DecisionInput) (d : DecisionOutput)
    (after : list (DecisionInput * DecisionOutput)) :
  decisions (events (final_store (run self fuel query w)))
    = before ++ (input, d) :: after ->
  reports_history self query (opening_perception self query w) before input.
Proof.
  set (told := fun l : list (DecisionInput * DecisionOutput) =>
    forall before input d after,
      l = before ++ (input, d) :: after ->
      reports_history self query (opening_perception self query w) before input).
  set (P := fun (st : Store W) (step : option StepRef) =>
    told (decisions (events st)) /\
    forall r, step = Some r ->
      length (objects st) = S r /\
      session_steps st = seq 0 (S r) /\
      length (plan_versions (session st)) = S r /\
      (exists v x, last (plan_versions (session st)) = Some v /\
                   last (decisions (events st)) = Some x /\
                   plan_text v = out_plan_text x.2) /\
      Forall (fun s => status s = "completed") (take r (objects st)) /\
      blueprint <$> objects st
        = (fun x => blueprint (new_step x.2)) <$> decisions (events st)).
  assert (run_result P (run self fuel query w)) as H.
  { apply run_has_result.
    - intros st r next st' _ [Htold Hhead] Hiter.
      destruct next as [n|].
      2: { split; [|done].
           apply iterates_changes in Hiter
             as (s & s' & mid & dec & _ & _ & Hev & _ & Hdec & _ & _ & _ & Hnext & _).
           destruct dec; [done|].
           rewrite Hev, decisions_app, decisions_entry, Hdec. simpl.
           by rewrite app_nil_r. }
      destruct (Hhead r eq_refl)
        as (Hlen & Hsteps & Hpvs & (v0 & x & Hv0 & Hx & Hplan) & Hdone & Hblue).
      apply iterates_request in Hiter
        as (s & c & resp & v & p & w2 & all & d0 & Hs & Hlast & Hall & -> & Hobjs
            & Hpvs' & Hdecs).
      rewrite Hlast in Hv0. injection Hv0 as <-.
      assert (length (decisions (events st)) = S r) as Hdlen.
      { rewrite <- Hlen, <- (length_fmap blueprint), Hblue. by rewrite length_fmap. }
      assert (all = <[r := executed_code resp p s]> (objects st)) as ->.
      { unfold deref_all in Hall. rewrite Hsteps in Hall. simpl objects in Hall.
        rewrite <- Hlen, <- (length_insert (objects st) r (executed_code resp p s))
          in Hall.
        rewrite lookup_all in Hall. by injection Hall as <-. }
      assert (Forall (fun s => status s = "completed")
                (<[r := executed_code resp p s]> (objects st))) as Hall'.
      { rewrite <- (take_drop r (objects st)) at 1.
        rewrite insert_app_r_alt by (rewrite length_take; lia).
        rewrite length_take, Nat.min_l, Nat.sub_diag by lia.
        apply Forall_app. split; [done|].
        destruct (drop r (objects st)) as [|y rest] eqn:Hdrop; [done|].
        assert (rest = []) as ->.
        { apply (f_equal length) in Hdrop. rewrite length_drop in Hdrop.
          simpl in Hdrop. destruct rest; [done|simpl in Hdrop; lia]. }
        simpl. by apply Forall_singleton. }
      assert (blueprint <$> <[r := executed_code resp p s]> (objects st)
              = (fun x => blueprint (new_step x.2)) <$> decisions (events st))
        as Hblue'.
      { rewrite list_fmap_insert.
        assert ((blueprint <$> objects st) !! r = Some (blueprint s)) as Hl
          by (rewrite list_lookup_fmap; exact (f_equal (fmap blueprint) Hs)).
        change (blueprint (executed_code resp p s)) with (blueprint s).
        by rewrite (list_insert_id _ _ _ Hl). }
      split.
      + intros before0 input0 d1 after0 Heq. rewrite Hdecs in Heq.
        apply app_snoc_split in Heq as [(-> & <- & [= <- <-])|(after' & -> & Heq)].
        2: by eapply Htold.
        unfold reports_history. rewrite Hx.
        eexists _, _, _. split.
        { by rewrite Hdlen, Hpvs, Hplan. }
        rewrite (filter_all _ _ Hall').
        split; [exact Hblue'|]. split; [exact Hall'|]. split.
        { rewrite last_lookup, length_insert, Hlen. simpl.
          apply list_lookup_insert_eq. lia. }
        by exists p.
      + intros r' [= <-]. rewrite Hobjs, Hpvs', Hdecs.
        split; [rewrite length_app, length_insert; simpl; lia|].
        split.
        { unfold session_steps in *. rewrite Hpvs', map_app, concat_app, Hsteps.
          rewrite Hlen. exact (eq_sym (seq_S (S r) 0)). }
        split; [rewrite length_app; simpl; lia|].
        split.
        { eexists _, _. rewrite !last_snoc. done. }
        split.
        { rewrite Hlen, take_app_length'
            by (by rewrite length_insert). exact Hall'. }
        by rewrite !fmap_app, Hblue'.
    - intros _. split; [|done].
      intros before0 input0 d1 after0 Heq. by destruct before0.
    - intros _. split.
      + intros before0 input0 d1 after0 Heq.
        destruct before0 as [|? [|? ?]]; [|done..].
        by injection Heq as <- <- <-.
      + intros r [= <-]. split; [done|]. split; [done|]. split; [done|].
        split; [by eexists _, _|]. split; [by constructor|done]. }
  apply run_result_final in H as [step [Htold _]].
  intros Heq. by eapply Htold.
Qed.

End Requests.

Lemma requests_report_history_witness :
  exists before input d after,
    decisions (events (final_store (run scripted 2 "How many words?" counting_world)))
      = before ++ (input, d) :: after /\
    length before = 1 /\
    reports_history scripted "How many words?"
      (opening_perception scripted "How many words?" counting_world) before input.
Proof.
  destruct (decisions
              (events (final_store (run scripted 2 "How many words?" counting_world))))
    as [|x0 [|[i d] [|y rest]]] eqn:Heq.
  1, 2, 4: vm_compute in Heq; discriminate Heq.
  exists [x0], i, d, []. split; [reflexivity|]. split; [reflexivity|].
  exact (requests_report_history scripted 2 "How many words?" counting_world
           [x0] i d [] Heq).
Defined.

(** ** What the failure memory holds *)

Section Remembered.

Context {W : Type} (self : AgentLoop W).

Implicit Types (st : Store W) (r : StepRef) (s : Step).

Lemma last_object {A} (l : list A) r x y :
  length l = S r -> l !! r = Some x ->
  l = take r l ++ [x] /\ <[r := y]> l = take r l ++ [y].
Proof.
  intros Hlen Hx.
  assert (l = take r l ++ [x]) as Hl.
  { rewrite <- (take_drop r l) at 1. f_equal.
    rewrite (drop_S l x r Hx), drop_ge by lia. done. }
  split; [exact Hl|].
  rewrite Hl at 1. rewrite insert_app_r_alt by (rewrite length_take; lia).
  rewrite length_take, Nat.min_l, Nat.sub_diag by lia. done.
Qed.

Lemma failures_app l1 l2 : failures (l1 ++ l2) = failures l1 ++ failures l2.
Proof. apply omap_app. Qed.

Lemma window_slides f (fs : list MemoryRecord) :
  remember_failure f (drop (length fs - 3) fs)
    = drop (length (fs ++ [f]) - 3) (fs ++ [f]).
Proof.
  rewrite remember_failure_drop by (rewrite length_drop; lia).
  rewrite <- (drop_app_le fs [f] (length fs - 3)) by lia.
  rewrite drop_drop. f_equal.
  rewrite length_drop, !length_app. simpl. lia.
Qed.

(** X14.  However a run ends, the failure memory holds the failure records
    of the last three steps of the session that failed (all of them when
    fewer did), oldest first, where a step failed when the snapshot of its
    executor response says that its local goal was not achieved.  So a step
    that succeeds, a CONCLUDE or a NOP step never touches the memory, and
    nothing ever clears it. *)
Theorem failure_memory_tracks_failures (fuel : nat) (query : string) (w : W) :
  let st := final_store (run self fuel query w) in
  session_memory st
    = drop (length (failures (objects st)) - 3) (failures (objects st)).
Proof.
  set (P := fun (st : Store W) (step : option StepRef) =>
    session_memory st
      = drop (length (failures (objects st)) - 3) (failures (objects st)) /\
    forall r, step = Some r -> length (objects st) = S r).
  assert (run_result P (run self fuel query w)) as H.
  { apply run_has_result;
      [|intros _; split; [reflexivity|by intros r [= <-]]..].
    intros st r next st' (_ & _ & Hstep) [Hmem Hlen] Hiter.
    destruct (Hstep r eq_refl) as (d & t & Hd & _).
    specialize (Hlen r eq_refl).
    assert (failures (objects st) = failures (take r (objects st))) as Hold.
    { rewrite (proj1 (last_object _ r _ (new_step d) Hlen Hd)) at 1.
      rewrite failures_app. simpl. by rewrite app_nil_r. }
    assert (forall y, failures (<[r := y]> (objects st))
                      = failures (objects st) ++ option_list (failure_of y)) as Hnew.
    { intros y. rewrite (proj2 (last_object _ r _ y Hlen Hd)), failures_app, Hold.
      simpl. by destruct (failure_of y). }
    assert (forall y, failure_of y = None ->
              failures (<[r := y]> (objects st)) = failures (objects st)) as Hsame.
    { intros y Hy. by rewrite Hnew, Hy, app_nil_r. }
    assert (forall resp p c v w2,
              let st1 := code_executed r (new_step d) c resp v p w2 st in
              session_memory st1
                = drop (length (failures (objects st1)) - 3) (failures (objects st1)))
      as Hcode.
    { intros resp p c v w2. simpl. rewrite Hnew.
      unfold failure_of. simpl.
      destruct (local_goal_achieved p); simpl.
      - by rewrite app_nil_r.
      - rewrite Hmem. apply window_slides. }
    inversion Hiter as [s tc c resp w1 v p w2 next' st2 Hs Hty Hcd Hc Hrun Hlast Hper Heval
                       | s v p w1 Hs Hty Hlast Hper | s Hs Hty | s Hs H1 H2 H3]; subst.
    all: rewrite Hd in Hs; injection Hs as <-.
    - specialize (Hcode resp p c v w2). simpl in Hcode.
      inversion Heval as [ | v' all d' w' Ho Hl Hlast' Hall Hidx Hdec
                           | | v' all d' w' Ho Hl Hlast' Hall Hdec ]; subst.
      + split; [exact Hcode|done].
      + split.
        * simpl. rewrite failures_app. simpl. rewrite app_nil_r. exact Hcode.
        * intros r' [= <-]. simpl. rewrite length_app. simpl. lia.
      + split; [exact Hcode|done].
      + split.
        * simpl. rewrite failures_app. simpl. rewrite app_nil_r. exact Hcode.
        * intros r' [= <-]. simpl. rewrite length_app. simpl. lia.
    - split; [|done]. simpl. rewrite Hsame; [done|].
      unfold failure_of. simpl. by destruct (out_conclusion d).
    - split; [|done]. simpl. by rewrite Hsame.
    - split; [|done]. done. }
  by apply run_result_final in H as [step [H _]].
Qed.

End Remembered.

(** ** How a run ends *)

Section Endings.

Context {W : Type} (self : AgentLoop W).

Implicit Types (st : Store W) (r : StepRef) (s : Step).

Lemma last_insert {A} (l : list A) r y :
  length l = S r -> last (<[r := y]> l) = Some y.
Proof.
  intros Hlen. rewrite last_lookup, length_insert, Hlen. simpl.
  apply list_lookup_insert_eq. lia.
Qed.

(** X15.  The ways in which [run] returns.  Either the opening perception
    answered the query, or the run stopped on the newest step of the
    session, in one of five ways: a CODE step whose snapshot says that the
    original goal is achieved (the session is marked complete with that
    snapshot); a CODE step whose snapshot says that only its local goal is
    achieved while the latest plan text has no line after the step's index
    (the session state is still the initial one: no final answer); a
    CONCLUDE step (marked complete with the conclusion as answer); a NOP
    step (status "clarification_needed", initial state); a step of an
    unknown type (still "pending", initial state).  In particular [run]
    never returns right after a CODE step whose snapshot says that neither
    goal is achieved.  It does return after a CODE step that was recorded
    in the failure memory, when the snapshot of that step says that the
    original goal is achieved and its local goal is not. *)
Theorem run_ends_in (fuel : nat) (query : string) (w : W)
    (a : AgentSession) (st : Store W) :
  run self fuel query w = Done a st ->
  a = session st /\
  ((original_goal_achieved (opening_perception self query w) = true /\
    st = answered self query w) \/
   exists s,
     last (objects st) = Some s /\
     ((type s = "CODE" /\ status s = "completed" /\
       exists p, perception s = Some p /\
         ((original_goal_achieved p = true /\ state a = completed_state p None) \/
          (original_goal_achieved p = false /\ local_goal_achieved p = true /\
           (exists v, last (plan_versions a) = Some v /\
                      (Z.of_nat (length (plan_text v)) <= index s + 1)%Z) /\
           state a = initial_state))) \/
      (type s = "CONCLUDE" /\ status s = "completed" /\
       exists p, perception s = Some p /\
                 state a = completed_state p (conclusion s)) \/
      (type s = "NOP" /\ status s = "clarification_needed" /\
       perception s = None /\ state a = initial_state) \/
      (type s <> "CODE" /\ type s <> "CONCLUDE" /\ type s <> "NOP" /\
       status s = "pending" /\ state a = initial_state))).
Proof.
  set (ended := fun (st : Store W) =>
    (original_goal_achieved (opening_perception self query w) = true /\
     st = answered self query w) \/
    exists s,
      last (objects st) = Some s /\
      ((type s = "CODE" /\ status s = "completed" /\
        exists p, perception s = Some p /\
          ((original_goal_achieved p = true /\
            state (session st) = completed_state p None) \/
           (original_goal_achieved p = false /\ local_goal_achieved p = true /\
            (exists v, last (plan_versions (session st)) = Some v /\
                       (Z.of_nat (length (plan_text v)) <= index s + 1)%Z) /\
            state (session st) = initial_state))) \/
       (type s = "CONCLUDE" /\ status s = "completed" /\
        exists p, perception s = Some p /\
                  state (session st) = completed_state p (conclusion s)) \/
       (type s = "NOP" /\ status s = "clarification_needed" /\
        perception s = None /\ state (session st) = initial_state) \/
       (type s <> "CODE" /\ type s <> "CONCLUDE" /\ type s <> "NOP" /\
        status s = "pending" /\ state (session st) = initial_state))).
  set (P := fun (st : Store W) (step : option StepRef) =>
    match step with
    | Some r => state (session st) = initial_state /\ length (objects st) = S r
    | None => ended st
    end).
  assert (run_result P (run self fuel query w)) as H.
  { apply run_has_result.
    - intros st0 r next st' (_ & _ & Hstep) [Hstate Hlen] Hiter.
      destruct (Hstep r eq_refl) as (d & t & Hd & _).
      inversion Hiter
        as [s tc c resp w1 v p w2 next' st2 Hs Hty Hcd Hc Hrun Hlast Hper Heval
           | s v p w1 Hs Hty Hlast Hper | s Hs Hty | s Hs H1 H2 H3]; subst.
      all: rewrite Hd in Hs; injection Hs as <-.
      + inversion Heval as [ Ho | v' all d' w' Ho Hl Hlast' Hall Hidx Hdec
                             | v' Ho Hl Hlast' Hidx
                             | v' all d' w' Ho Hl Hlast' Hall Hdec ]; subst.
        * right. exists (executed_code resp p (new_step d)).
          split; [simpl; by apply last_insert|].
          left. split; [exact Hty|]. split; [done|].
          exists p. split; [done|]. by left.
        * split; [exact Hstate|]. simpl.
          rewrite length_app, length_insert. simpl. lia.
        * right. exists (executed_code resp p (new_step d)).
          split; [simpl; by apply last_insert|].
          left. split; [exact Hty|]. split; [done|].
          exists p. split; [done|]. right.
          split; [done|]. split; [done|]. split; [|exact Hstate].
          exists v'. split; [exact Hlast'|]. simpl in Hidx. simpl. lia.
        * split; [exact Hstate|]. simpl.
          rewrite length_app, length_insert. simpl. lia.
      + right. exists (executed_conclude p (new_step d)).
        split; [simpl; by apply last_insert|].
        right. left. split; [exact Hty|]. split; [done|]. by exists p.
      + right. exists (with_status "clarification_needed" (new_step d)).
        split; [simpl; by apply last_insert|].
        right. right. left. done.
      + right. exists (new_step d).
        split; [simpl; rewrite last_lookup, Hlen; exact Hd|].
        right. right. right. done.
    - intros Hopen. by left.
    - intros _. done. }
  intros Hrun. rewrite Hrun in H. destruct H as [-> H]. split; [done|exact H].
Qed.

End Endings.

Lemma run_ends_in_witness :
  exists a st s,
    run scripted 1 "How many words?" inconsistent_world = Done a st /\
    a = session st /\
    last (objects st) = Some s /\
    type s = "CODE" /\
    perception s = Some inconsistent /\
    state a = completed_state inconsistent None /\
    failures (objects st) = [failure_summary s tool_success] /\
    session_memory st = [failure_summary s tool_success].
Proof.
  destruct (run scripted 1 "How many words?" inconsistent_world)
    as [a st|e st|st] eqn:Hrun.
  2, 3: vm_compute in Hrun; discriminate Hrun.
  destruct (run_ends_in scripted 1 "How many words?" inconsistent_world a st Hrun)
    as [Ha [[Hopen _]|(s & Hlast & Hend)]].
  { vm_compute in Hopen. discriminate Hopen. }
  assert (st = final_store (run scripted 1 "How many words?" inconsistent_world))
    as Hst by (by rewrite Hrun).
  assert (last (objects st)
            = Some (executed_code tool_success inconsistent (new_step count_step)))
    as Hs by (rewrite Hst; vm_compute; reflexivity).
  rewrite Hs in Hlast. injection Hlast as <-.
  exists a, st, (executed_code tool_success inconsistent (new_step count_step)).
  split; [reflexivity|]. split; [exact Ha|]. split; [exact Hs|].
  split; [reflexivity|]. split; [reflexivity|].
  destruct Hend as [(_ & _ & p & Hp & [[_ Hstate]|(Ho & _)])
                   |[(Hty & _)|[(Hty & _)|(Hty & _)]]].
  - injection Hp as <-. split; [exact Hstate|].
    rewrite Hst. split; vm_compute; reflexivity.
  - injection Hp as <-. discriminate Ho.
  - discriminate Hty.
  - discriminate Hty.
  - exfalso. by apply Hty.
Defined.
